(** * sails-elasticsearch: the Waterline adapter for Elasticsearch

    A shallow embedding of [lib/adapter.js] and [lib/connection.js], and the
    properties of the query translator, the response mapper, the attribute
    restrictor and the connection registry.

    [lib/adapter.js] ships in two variants.  The one with
    [smartTermOrTermsQuery], [getFound], [mget], nested paths, sorting and
    paging, which has what the @Issue notes of the other ask for, is called
    the current variant and is embedded in the modules [Translator],
    [Mapper], [Restrictor], [Registry] and [Adapter]; the other is called
    the earlier variant, and the functions in which it differs are embedded
    in the modules whose name starts with [Legacy].  [registerConnection],
    [teardown] and [getIndex] are the same in both.

    Conventions of the embedding:
    - a JavaScript value built or read by the adapter is a [json] tree; an
      object is the list of its own enumerable properties in enumeration
      order (keys are unique in every object the adapter receives); a
      number is an integer;
    - an assignment [o[k] = v] with a computed key is [assign], which knows
      the key [__proto__]; a read [o[k]] with a computed key ([getJ],
      [read]) sees the own properties, and the statements that depend on a
      property being absent keep to keys that objects do not inherit from
      [Object.prototype];
    - an object that the adapter mutates through a reference it was handed
      (the [values] of [create] and [update]) lives in a [heap];
    - an uncaught exception is [Throw]; a function that hands its result to
      a Node callback returns a [prog], the tree of the client requests it
      issues and of the callback invocation that ends it. *)

From Stdlib Require Import ZArith String Ascii List.
From stdpp Require Import base tactics option list strings gmap pretty.

Set Warnings "-register-all,-clear-no-such-hyp".
Local Open Scope string_scope.
Local Open Scope list_scope.

(** ** JavaScript values *)

Inductive json : Type :=
| JUndefined
| JNull
| JBool (b : bool)
| JNum (n : Z)
| JStr (s : string)
| JArr (xs : list json)
| JObj (ps : list (string * json)).

(** [x == undefined] and [x != undefined]: loose equality with [undefined]
    holds of [undefined] and [null] only. *)
Definition isNullish (j : json) : bool :=
  match j with
  | JUndefined | JNull => true
  | _ => false
  end.

(** [Array.isArray(x)]. *)
Definition isArray (j : json) : bool :=
  match j with
  | JArr _ => true
  | _ => false
  end.

(** Own properties of an object: [o[k]], [o[k] = v], [delete o[k]] and
    [Object.keys(o)]. *)
Section Props.
Context {A : Type}.

Fixpoint getProp (k : string) (ps : list (string * A)) : option A :=
  match ps with
  | [] => None
  | (k', v) :: ps' => if decide (k = k') then Some v else getProp k ps'
  end.

(** Assignment keeps the position of a key that is already there and
    appends a new key. *)
Fixpoint setProp (k : string) (v : A) (ps : list (string * A)) : list (string * A) :=
  match ps with
  | [] => [(k, v)]
  | (k', v') :: ps' =>
      if decide (k = k') then (k, v) :: ps' else (k', v') :: setProp k v ps'
  end.

(** [o[k] = v] with a computed key, on an object that a literal has made
    and that inherits from [Object.prototype]: the key [__proto__] reaches
    the setter that [Object.prototype] has for it, which makes no own
    property (it changes what the object inherits from when [v] is an
    object or [null], and does nothing otherwise); every other key is
    assigned as an own property.  The lists hold the own enumerable
    properties, which are what the client serialises. *)
Definition assign (k : string) (v : A) (ps : list (string * A))
    : list (string * A) :=
  if decide (k = "__proto__") then ps else setProp k v ps.

Fixpoint delProp (k : string) (ps : list (string * A)) : list (string * A) :=
  match ps with
  | [] => []
  | (k', v') :: ps' =>
      if decide (k = k') then delProp k ps' else (k', v') :: delProp k ps'
  end.

Definition keys (ps : list (string * A)) : list string := ps.*1.
End Props.

(** [o[k]] read as a JavaScript value, as far as the own properties of [o]
    go: a missing property is [undefined]. *)
Definition getJ (k : string) (ps : list (string * json)) : json :=
  default JUndefined (getProp k ps).

(** ** Exceptions *)

Inductive res (A : Type) : Type :=
| Ret (a : A)
| Throw (e : string).
Arguments Ret {A} a.
Arguments Throw {A} e.

#[global] Instance res_ret : MRet res := @Ret.
#[global] Instance res_bind : MBind res :=
  λ A B f m, match m with Ret a => f a | Throw e => Throw e end.

(** ** Strings *)

(** [s.split(c)] for a one-character separator. *)
Fixpoint split (sep : ascii) (s : string) : list string :=
  match s with
  | EmptyString => [""]
  | String c r =>
      if decide (c = sep) then "" :: split sep r
      else match split sep r with
           | h :: t => String c h :: t
           | [] => [String c ""]
           end
  end.

(** ** The query translator of [find] *)

Module Translator.

(** Make a Term or Terms query. *)
Definition smartTermOrTermsQuery (field : string) (value : json) : json :=
  if isArray value
  then JObj (setProp "terms" (JObj (assign field value [])) [])
  else JObj (setProp "term" (JObj (assign field value [])) []).

(** The accumulator [[path, object, termFilter]] of the [reduce] over the
    field parts.  Its second component is a reference to an empty object
    inside [nestedQuery]; the embedding keeps, instead of the reference,
    the function [hole] that gives [nestedQuery] once that object has
    received its content. *)
Record accum : Type := { path : string; hole : json → json }.

Definition nestedClause (p : string) (query : json) : json :=
  JObj [("nested", JObj [("path", JStr p); ("query", query)])].

Definition boolFilter (filter : json) : json :=
  JObj [("bool", JObj [("filter", filter)])].

(** One call of the reducer; the state is the accumulator ([None] once the
    reducer has returned [undefined]) and the current [nestedQuery]. *)
Definition reducer (fieldPartsCount : nat) (termFilter : json)
    (result : option accum) (nestedQuery : json) (value : string) (key : nat)
    : res (option accum * json) :=
  match result with
  | None => Throw "TypeError: Cannot read property '0' of undefined"
  | Some r =>
      let p := if decide (path r = "") then value
               else path r +:+ "." +:+ value in
      if (Z.of_nat key <? Z.of_nat fieldPartsCount - 2)%Z
      then Ret (Some {| path := p;
                        hole := λ q, hole r (nestedClause p q) |},
                hole r (nestedClause p (JObj [])))
      else Ret (None, hole r (nestedClause p (boolFilter termFilter)))
  end.

(** [fieldParts.reduce(reducer, init)], from index [key] on. *)
Fixpoint reduce (fieldPartsCount : nat) (termFilter : json)
    (fieldParts : list string) (key : nat)
    (result : option accum) (nestedQuery : json)
    : res (option accum * json) :=
  match fieldParts with
  | [] => Ret (result, nestedQuery)
  | value :: rest =>
      st ← reducer fieldPartsCount termFilter result nestedQuery value key;
      reduce fieldPartsCount termFilter rest (S key) st.1 st.2
  end.

(** The body of the loop [for (field in options.where)]: the element that
    is pushed on [body.query.bool.filter]. *)
Definition whereFilter (field : string) (value : json) : res json :=
  let fieldParts := split "." field in
  let fieldPartsCount := length fieldParts in
  if decide (fieldPartsCount = 1)
  then Ret (smartTermOrTermsQuery field value)
  else
    let termFilter := smartTermOrTermsQuery field value in
    let fieldParts := removelast fieldParts in
    st ← reduce fieldPartsCount termFilter fieldParts 0
           (Some {| path := ""; hole := λ q, q |}) (JObj []);
    Ret st.2.

(** ORM criteria.  [where] is absent ([None]) or an object; [skip] and
    [limit] are JavaScript values; the sort directions are numeric codes. *)
Record criteria : Type := {
  c_where : option (list (string * json));
  c_skip : json;
  c_limit : json;
  c_sort : option (list (string * Z))
}.

Definition whereEntries (options : criteria) : list (string * json) :=
  default [] (c_where options).

Definition sortQuery (sort : list (string * Z)) (sortField : string) : json :=
  JObj (assign sortField
          (JObj [("order",
                  JStr (if decide (default 0%Z (getProp sortField sort) = 1%Z)
                        then "asc" else "desc"))]) []).

(** The request body that [find] hands to [client.search]. *)
Definition findBody (options : criteria) : res json :=
  filter ← mapM (λ field, whereFilter field (getJ field (whereEntries options)))
                (keys (whereEntries options));
  let query :=
    match c_where options with
    | Some _ => JObj [("bool", JObj [("filter", JArr filter)])]
    | None => JObj [("match_all", JObj [])]
    end in
  let body := [("query", query)] in
  let body := if isNullish (c_skip options) then body
              else setProp "from" (c_skip options) body in
  let body := if isNullish (c_limit options) then body
              else setProp "size" (c_limit options) body in
  let body :=
    match c_sort options with
    | Some sort =>
        if decide (length (keys sort) = 0) then body
        else setProp "sort" (JArr (sortQuery sort <$> keys sort)) body
    | None => body
    end in
  Ret (JObj body).

End Translator.

(** The translator of the earlier variant: one [term] filter per entry,
    always inside [bool.filter]. *)
Module LegacyTranslator.

Definition term (field : string) (value : json) : json :=
  JObj (setProp "term" (JObj (assign field value [])) []).

Definition findBody (options : Translator.criteria) : json :=
  let w := Translator.whereEntries options in
  JObj [("query",
         JObj [("bool",
                JObj [("filter", JArr ((λ field, term field (getJ field w)) <$> keys w))])])].

End LegacyTranslator.

(** ** Reading a query document *)

(** The shape of a nested query: [nest [p1; ...; pk] q] wraps [q] in [k]
    nested clauses, [p1] outermost. *)
Fixpoint nest (paths : list string) (inner : json) : json :=
  match paths with
  | [] => inner
  | p :: ps => Translator.nestedClause p (nest ps inner)
  end.

(** The paths of the nested clauses around a filter, from the outside in. *)
Fixpoint nestedPaths (c : json) : list string :=
  match c with
  | JObj [(k, JObj [(k1, JStr p); (k2, q)])] =>
      if decide (k = "nested" ∧ k1 = "path" ∧ k2 = "query")
      then p :: nestedPaths q else []
  | _ => []
  end.

(** The clauses of one kind (["term"] or ["terms"]) that a filter holds,
    each as the field it is on and the value it compares with, looking
    through nested clauses and [bool.filter].  A clause that names no
    field, [{term: {}}], is not among them. *)
Fixpoint clausesOf (kind : string) (c : json) : list (string * json) :=
  match c with
  | JObj [(k, JObj [(k1, JStr _); (k2, q)])] =>
      if decide (k = "nested" ∧ k1 = "path" ∧ k2 = "query")
      then clausesOf kind q else []
  | JObj [(k, JObj [(k1, q)])] =>
      if decide (k = "bool" ∧ k1 = "filter") then clausesOf kind q
      else if decide (k = kind) then [(k1, q)] else []
  | _ => []
  end.

(** [body.query.bool.filter] of a request body. *)
Definition queryFilter (body : json) : option (list json) :=
  match body with
  | JObj b =>
      match getJ "query" b with
      | JObj q =>
          match getJ "bool" q with
          | JObj bo => match getJ "filter" bo with JArr f => Some f | _ => None end
          | _ => None
          end
      | _ => None
      end
  | _ => None
  end.

(** [body.query] of a request body. *)
Definition queryOf (body : json) : json :=
  match body with
  | JObj b => getJ "query" b
  | _ => JUndefined
  end.

(** The cumulative dot-joined prefixes of a field path, the leaf excluded. *)
Definition prefixPaths (parts : list string) : list string :=
  (λ k, String.concat "." (take k parts)) <$> seq 1 (length parts - 1).

(** The paths as the reducer builds them, starting from the path [p]. *)
Fixpoint reducerPaths (p : string) (parts : list string) : list string :=
  match parts with
  | [] => []
  | value :: rest =>
      let p' := if decide (p = "") then value else p +:+ "." +:+ value in
      p' :: reducerPaths p' rest
  end.


(** ** Errors and Elasticsearch responses *)

(** What a callback receives as its first argument: an [Error] made by the
    adapter, or whatever the client library reported. *)
Inductive error : Type :=
| Error (message : string)
| ClientError (e : json).

(** A search hit, and the response to [client.get]. *)
Record hit : Type := { _id : json; _source : list (string * json) }.

(** An element of the [docs] of an [mget] response. *)
Record doc : Type := { found : bool; doc_hit : hit }.

(** The part of a search response that the adapter reads:
    [esResponse.hits.total] and [esResponse.hits.hits]. *)
Record searchResponse : Type := { total : Z; hits : list hit }.

(** The response to [client.index] and [client.update]: its [_id], and the
    whole of it as the callback of the earlier variant receives it. *)
Record written : Type := { written_id : json; written_raw : json }.

(** ** The heap of the objects that the adapter mutates in place *)

Definition loc : Type := positive.

Inductive hval : Type :=
| HUndefined
| HNull
| HBool (b : bool)
| HNum (n : Z)
| HStr (s : string)
| HRef (l : loc).

(** An object with its own properties, or an array; a deleted array element
    leaves a hole ([None]) and the length unchanged. *)
Inductive cell : Type :=
| Obj (ps : list (string * hval))
| Arr (es : list (option hval)).

Abbreviation heap := (gmap loc cell).

(** ** Connections and the elasticsearch client *)

(** The connection configuration handed to [registerConnection]:
    [identity] and [index] are read by the adapter, the rest goes to the
    client library. *)
Record connectionConfig : Type := {
  identity : option string;
  cfg_index : json;
  cfg_rest : list (string * json)
}.

(** [new elasticsearch.Client(config)]. *)
Inductive client : Type := Client (cfg : connectionConfig).

(** The [connection] property of a [Connection] object: the empty object
    [{}] ([None]) until [connect] has handed over the client. *)
Definition handle : Type := option client.

(** ** Requests to the client *)

Inductive method : Type :=
| M_search | M_index | M_update | M_delete | M_get | M_mget
| M_indices_exists | M_indices_create | M_indices_putMapping.

Inductive payload : Type :=
| PQuery (body : json)
| PValues (values : loc) (h : heap)
| PDoc (doc : loc) (h : heap)
| PIds (ids : json)
| PSettings (settings : json)
| PProperties (properties : list (string * json)).

(** The parameter object of a client call. *)
Record params : Type := {
  p_index : json;
  p_type : option json;
  p_id : option json;
  p_body : option payload
}.

Definition response (m : method) : Type :=
  match m with
  | M_search => searchResponse
  | M_index | M_update => written
  | M_delete => unit
  | M_get => hit
  | M_mget => list doc
  | M_indices_exists => bool
  | M_indices_create | M_indices_putMapping => json
  end.

(** What an adapter method does: it issues a request and goes on in the
    callback it gave to the client, or invokes its own callback [cb], or
    raises an exception, or returns without doing any of these. *)
Inductive prog : Type :=
| Call (c : client) (m : method) (p : params) (k : error + response m → prog)
| Callback (err : option error) (result : option json)
| Raise (e : string)
| Silent.

(** [client.method(params, k)] on the value found in the handle slot. *)
Definition call (c : handle) (m : method) (p : params)
    (k : error + response m → prog) : prog :=
  match c with
  | Some c => Call c m p k
  | None => Raise "TypeError: client method is not a function"
  end.

Definition run (p : res prog) : prog :=
  match p with
  | Ret p => p
  | Throw e => Raise e
  end.

(** Every request that a program may issue, whatever the client answers,
    satisfies [P]. *)
Fixpoint allRequests (P : method → params → Prop) (pr : prog) : Prop :=
  match pr with
  | Call c m p k => P m p ∧ ∀ r, allRequests P (k r)
  | _ => True
  end.

(** The program ends before its first request. *)
Definition noRequest (pr : prog) : Prop := allRequests (λ _ _, False) pr.

(** ** [async.each] and [async.eachLimit] *)

(** The limit for concurrent operations: the configured count when there is
    one that is not zero, 100 otherwise. *)
Definition asyncLimit (custom : option nat) : nat :=
  match custom with
  | Some (S n) => S n
  | _ => 100
  end.

(** [async.eachLimit(coll, limit, iteratee, callback)] for an iteratee that
    completes synchronously, as all of the adapter's do: each element is
    taken in order and has completed before the next one starts, so the
    limit (at least 1) never binds.  The iteratee works on the variables
    [S] of its closure and hands an optional error to its continuation; the
    first error ends the iteration.  The result is what [callback] gets. *)
Fixpoint eachLimit {A S : Type} (coll : list A) (limit : nat)
    (iteratee : A → S → S * option error) (s : S) : S * option error :=
  match coll with
  | [] => (s, None)
  | e :: rest =>
      match iteratee e s with
      | (s', None) => eachLimit rest limit iteratee s'
      | (s', Some err) => (s', Some err)
      end
  end.

(** [async.each(coll, iteratee, callback)], under the same reading. *)
Definition each {A S : Type} (coll : list A)
    (iteratee : A → S → S * option error) (s : S) : S * option error :=
  eachLimit coll (length coll) iteratee s.

(** ** The response mapper *)

Module Mapper.
Section WithLimit.
Variable custom_async_limit : option nat.

(** Convert a hit into the object that corresponds to the model: the
    stored body, with the identifier written into it as [_id]. *)
Definition hitToModel (hit : hit) : json :=
  JObj (setProp "_id" (_id hit) (_source hit)).

Definition getHits (esResponse : searchResponse)
    (cb : option error → option json → prog) : prog :=
  let results := [] in
  if decide (total esResponse = 0%Z) then cb None (Some (JArr results))
  else
    match eachLimit (hits esResponse) (asyncLimit custom_async_limit)
            (λ e results, (results ++ [hitToModel e], None)) results with
    | (_, Some err) => cb (Some err) None
    | (results, None) => cb None (Some (JArr results))
    end.

Definition getFound (esResponse : list doc)
    (cb : option error → option json → prog) : prog :=
  let results := [] in
  match eachLimit esResponse (asyncLimit custom_async_limit)
          (λ e results,
             if found e then (results ++ [hitToModel (doc_hit e)], None)
             else (results ++ [JBool false], None)) results with
  | (_, Some err) => cb (Some err) None
  | (results, None) => cb None (Some (JArr results))
  end.
End WithLimit.
End Mapper.

(** The mapper of the earlier variant: [id] instead of [_id], and no
    callback on an empty result. *)
Module LegacyMapper.

Definition getHits (esResponse : searchResponse)
    (cb : option error → option json → prog) : prog :=
  let results := [] in
  if decide (total esResponse = 0%Z) then Silent
  else
    match each (hits esResponse)
            (λ e results,
               (results ++ [JObj (setProp "id" (_id e) (_source e))], None))
            results with
    | (_, Some err) => cb (Some err) None
    | (results, None) => cb None (Some (JArr results))
    end.

End LegacyMapper.

(** ** The attribute restrictor *)

(** The definition of a model attribute, as far as the adapter reads it. *)
Record attribute : Type := {
  a_type : option string;
  a_restrictAttributes : option (list string);
  a_skipAttributes : option (list string);
  a_mapping : json
}.

(** Reading and deleting properties through a value on the heap. *)
Section HeapAccess.

Definition truthy (v : hval) : bool :=
  match v with
  | HUndefined | HNull => false
  | HBool b => b
  | HNum n => negb (n =? 0)%Z
  | HStr s => negb (bool_decide (s = ""))
  | HRef _ => true
  end.

(** The index that a property key denotes in an array of length [n]. *)
Definition arrayIndex (k : string) (n : nat) : option nat :=
  fst <$> list_find (λ i, pretty i = k) (seq 0 n).

(** [o[k]] for the object or array at [l], as far as its own properties
    go: a key that is not among them gives [undefined].  (Under a name
    that every object inherits the code finds the inherited member, which
    is truthy and has no enumerable keys.) *)
Definition read (h : heap) (l : loc) (k : string) : hval :=
  match h !! l with
  | Some (Obj ps) => default HUndefined (getProp k ps)
  | Some (Arr es) =>
      match arrayIndex k (length es) with
      | Some i => default HUndefined (mjoin (es !! i))
      | None => HUndefined
      end
  | None => HUndefined
  end.

Definition isArrayRef (h : heap) (v : hval) : option (loc * nat) :=
  match v with
  | HRef l =>
      match h !! l with
      | Some (Arr es) => Some (l, length es)
      | _ => None
      end
  | _ => None
  end.

(** [Object.keys(v)]: the own enumerable keys; a [TypeError] on [null]
    and [undefined]; the indexes of the elements that are there for an
    array and for a string; nothing for the other primitives. *)
Definition objectKeys (h : heap) (v : hval) : res (list string) :=
  match v with
  | HUndefined | HNull =>
      Throw "TypeError: Cannot convert undefined or null to object"
  | HRef l =>
      match h !! l with
      | Some (Obj ps) => Ret (keys ps)
      | Some (Arr es) =>
          Ret (omap (λ ie, match ie.2 with
                           | Some _ => Some (pretty ie.1)
                           | None => None
                           end) (imap pair es))
      | None => Ret []
      end
  | HStr s => Ret (pretty <$> seq 0 (String.length s))
  | _ => Ret []
  end.

(** [delete v[k]]: a [TypeError] on [null] and [undefined], nothing on a
    primitive (the file is not in strict mode). *)
Definition deleteProp (v : hval) (k : string) (h : heap) : res heap :=
  match v with
  | HUndefined | HNull =>
      Throw "TypeError: Cannot convert undefined or null to object"
  | HRef l =>
      match h !! l with
      | Some (Obj ps) => Ret (<[l := Obj (delProp k ps)]> h)
      | Some (Arr es) =>
          match arrayIndex k (length es) with
          | Some i => Ret (<[l := Arr (<[i := None]> es)]> h)
          | None => Ret h
          end
      | None => Ret h
      end
  | _ => Ret h
  end.

(** [list.forEach(f)] over a list of keys taken beforehand. *)
Fixpoint forEach {A : Type} (f : A → heap → res heap) (l : list A)
    (h : heap) : res heap :=
  match l with
  | [] => Ret h
  | x :: rest => h' ← f x h; forEach f rest h'
  end.

(** [array.forEach(f)] on the array at [l]: the indexes below the length
    at the start, each element read when its turn comes, holes skipped. *)
Fixpoint arrayForEach (f : hval → heap → res heap) (l : loc)
    (indexes : list nat) (h : heap) : res heap :=
  match indexes with
  | [] => Ret h
  | i :: rest =>
      match h !! l with
      | Some (Arr es) =>
          match es !! i with
          | Some (Some e) => h' ← f e h; arrayForEach f l rest h'
          | _ => arrayForEach f l rest h
          end
      | _ => arrayForEach f l rest h
      end
  end.

End HeapAccess.

Module Restrictor.

Definition restrictObjectAttributes (restrictedFields : list string)
    (object : hval) (h : heap) : res heap :=
  ks ← objectKeys h object;
  forEach (λ e h, if bool_decide (e ∈ restrictedFields) then Ret h
                  else deleteProp object e h) ks h.

(** The skip loop, the same in both variants: for every key of
    [values[attribute]], and every element of the skip list that equals
    it, [delete values[attribute][e]]. *)
Definition skipLoop (skipAttributes : list string) (values : loc)
    (attribute : string) (h : heap) : res heap :=
  ks ← objectKeys h (read h values attribute);
  forEach (λ e h,
             forEach (λ s h, if decide (e = s)
                             then deleteProp (read h values attribute) e h
                             else Ret h) skipAttributes h) ks h.

(** The body of the loop over [Object.keys(attributes)]. *)
Definition restrictAttribute (attributes : list (string * attribute))
    (values : loc) (attribute : string) (h : heap) : res heap :=
  match getProp attribute attributes with
  | None => Throw "TypeError: Cannot read property 'type' of undefined"
  | Some a =>
      if decide (a_type a = Some "json") then
        h ← match a_restrictAttributes a with
            | Some restrictedFields =>
                if truthy (read h values attribute) then
                  match isArrayRef h (read h values attribute) with
                  | Some (l, n) =>
                      arrayForEach (restrictObjectAttributes restrictedFields)
                        l (seq 0 n) h
                  | None =>
                      restrictObjectAttributes restrictedFields
                        (read h values attribute) h
                  end
                else Ret h
            | None => Ret h
            end;
        match a_skipAttributes a with
        | Some skipAttributes =>
            if truthy (read h values attribute)
            then skipLoop skipAttributes values attribute h
            else Ret h
        | None => Ret h
        end
      else Ret h
  end.

(** Restrict sub-attributes in attributes of type 'json'.  The result is
    the reference it was given, with the heap as the deletions left it. *)
Definition restrictAttributes (attributes : list (string * attribute))
    (values : loc) (h : heap) : res (loc * heap) :=
  h ← forEach (restrictAttribute attributes values) (keys attributes) h;
  Ret (values, h).

End Restrictor.

Module LegacyRestrictor.

(** For every key of [values[attribute]] and every element of the
    restrict list that differs from it, [delete values[attribute][e]]. *)
Definition restrictLoop (restrictAttributes : list string) (values : loc)
    (attribute : string) (h : heap) : res heap :=
  ks ← objectKeys h (read h values attribute);
  forEach (λ e h,
             forEach (λ r h, if decide (e ≠ r)
                             then deleteProp (read h values attribute) e h
                             else Ret h) restrictAttributes h) ks h.

Definition restrictAttribute (attributes : list (string * attribute))
    (values : loc) (attribute : string) (h : heap) : res heap :=
  match getProp attribute attributes with
  | None => Throw "TypeError: Cannot read property 'type' of undefined"
  | Some a =>
      if decide (a_type a = Some "json") then
        h ← match a_restrictAttributes a with
            | Some restrictedFields =>
                restrictLoop restrictedFields values attribute h
            | None => Ret h
            end;
        match a_skipAttributes a with
        | Some skipAttributes =>
            Restrictor.skipLoop skipAttributes values attribute h
        | None => Ret h
        end
      else Ret h
  end.

Definition restrictAttributes (attributes : list (string * attribute))
    (values : loc) (h : heap) : res (loc * heap) :=
  h ← forEach (restrictAttribute attributes values) (keys attributes) h;
  Ret (values, h).

End LegacyRestrictor.

(** ** The connection registry *)

Module Registry.

(** A [Connection] object: [this.config] and [this.connection]. *)
Record Connection : Type := {
  this_config : connectionConfig;
  this_connection : handle
}.

(** The metadata of a collection that the adapter reads:
    [adapter.identity], [primaryKey] and [_attributes]. *)
Record collection : Type := {
  adapter_identity : json;
  primaryKey : string;
  _attributes : list (string * attribute)
}.

(** An entry of [connections]; [connection] is missing until the
    [Connection] has called back. *)
Record registration : Type := {
  config : connectionConfig;
  collections : gmap string collection;
  connection : option Connection
}.

Abbreviation registry := (gmap string registration).

(** [connections] is created as [{}], so it inherits the members of
    [Object.prototype], all of them truthy. *)
Definition objectPrototype : list string :=
  ["constructor"; "__defineGetter__"; "__defineSetter__"; "hasOwnProperty";
   "__lookupGetter__"; "__lookupSetter__"; "isPrototypeOf";
   "propertyIsEnumerable"; "toString"; "valueOf"; "__proto__";
   "toLocaleString"].

(** The truth value of [connections[k]]. *)
Definition registered (connections : registry) (k : string) : bool :=
  bool_decide (is_Some (connections !! k)) || bool_decide (k ∈ objectPrototype).

(** [Connection.prototype.connect]: what it hands to its callback. *)
Definition connect (this : Connection) : error + client :=
  inr (Client (this_config this)).

Section Connect.
(** The [connect] that [this.connect] resolves to. *)
Variable this_connect : Connection → error + client.

(** [new Connection(config, cb)]: the object, and what [cb] receives. *)
Definition new_Connection (config : connectionConfig)
    : Connection * (error + Connection) :=
  let this := {| this_config := config; this_connection := None |} in
  match this_connect this with
  | inl err => (this, inl err)
  | inr client =>
      let self := {| this_config := config; this_connection := Some client |} in
      (self, inr self)
  end.

(** [registerConnection(connection, collections, cb)]: the registry it
    leaves, and what [cb] receives. *)
Definition registerConnection (connection : connectionConfig)
    (collections : option (gmap string collection))
    (connections : registry) : registry * (error + Connection) :=
  match identity connection with
  | None | Some "" =>
      (connections, inl (Error "Connection is missing an identity."))
  | Some id =>
      if registered connections id
      then (connections, inl (Error "Connection is already registered."))
      else
        let connections :=
          <[id := {| config := connection;
                     collections := default ∅ collections;
                     connection := None |}]> connections in
        match (new_Connection connection).2 with
        | inl err => (connections, inl err)
        | inr conn =>
            (alter (λ e, {| config := config e;
                            collections := Registry.collections e;
                            connection := Some conn |}) id connections,
             inr conn)
        end
  end.
End Connect.

(** [teardown(conn, cb)]; [conn] is [None] when the caller gave no
    identity.  The callback is invoked without arguments on every path. *)
Definition teardown (conn : option string) (connections : registry) : registry :=
  match conn with
  | None | Some "" => ∅
  | Some c => if registered connections c then delete c connections
              else connections
  end.

End Registry.

(** ** The adapter methods *)

(** [String(x)], used when a message is put together.  A number is
    printed in plain decimal, as JavaScript prints the integers below
    [10^21]; from there on JavaScript uses the exponent form, so the
    statements that read a message keep to [plainNumbers]. *)
Fixpoint toString (j : json) : string :=
  match j with
  | JUndefined => "undefined"
  | JNull => "null"
  | JBool b => if b then "true" else "false"
  | JNum n => pretty n
  | JStr s => s
  | JArr xs =>
      String.concat ","
        (map (λ x, match x with
                   | JUndefined | JNull => ""
                   | _ => toString x
                   end) xs)
  | JObj _ => "[object Object]"
  end.


Definition dquote : string := String (ascii_of_nat 34) "".

Definition missingKey : error :=
  Error "You must specify the primary key of the record you wish to delete.".

(** The Node convention [if (err) return cb(err); return cb(null, res)]. *)
Definition relay (f : json → option json) (r : error + json) : prog :=
  match r with
  | inl err => Callback (Some err) None
  | inr res => Callback None (f res)
  end.

Module Adapter.
Import Registry Translator.

Definition getClient (connections : registry) (connectionName : string)
    : res handle :=
  match connections !! connectionName with
  | Some e =>
      match connection e with
      | Some conn => Ret (this_connection conn)
      | None => Throw "TypeError: Cannot read property 'connection' of undefined"
      end
  | None => Throw "TypeError: Cannot read property 'connection' of undefined"
  end.

Definition getIndex (connections : registry) (connectionName : string)
    (collectionName : string) (index : json) : res json :=
  if isNullish index then
    match connections !! connectionName with
    | Some e =>
        if negb (isNullish (cfg_index (config e)))
        then Ret (cfg_index (config e))
        else Ret (JStr collectionName)
    | None => Throw "TypeError: Cannot read property 'config' of undefined"
    end
  else Ret index.

Definition getCollection (connections : registry) (connectionName : string)
    (collectionName : string) : res collection :=
  match connections !! connectionName with
  | Some e =>
      match collections e !! collectionName with
      | Some c => Ret c
      | None => Throw "TypeError: Cannot read property of undefined"
      end
  | None => Throw "TypeError: Cannot read property 'collections' of undefined"
  end.

Definition getType (connections : registry) (connectionName : string)
    (collectionName : string) : res json :=
  c ← getCollection connections connectionName collectionName;
  Ret (adapter_identity c).

Definition getPrimaryKeyField (connections : registry)
    (connectionName : string) (collectionName : string) : res string :=
  c ← getCollection connections connectionName collectionName;
  Ret (primaryKey c).

Definition getAttributes (connections : registry) (connectionName : string)
    (collectionName : string) : res (list (string * attribute)) :=
  c ← getCollection connections connectionName collectionName;
  Ret (_attributes c).

(** [options.where], about to be indexed. *)
Definition whereOf (options : criteria) : res (list (string * json)) :=
  match c_where options with
  | Some w => Ret w
  | None => Throw "TypeError: Cannot read property of undefined"
  end.

Definition request (index type : json) : params :=
  {| p_index := index; p_type := Some type; p_id := None; p_body := None |}.

Definition withId (id : json) (p : params) : params :=
  {| p_index := p_index p; p_type := p_type p; p_id := Some id;
     p_body := p_body p |}.

Definition withBody (body : payload) (p : params) : params :=
  {| p_index := p_index p; p_type := p_type p; p_id := p_id p;
     p_body := Some body |}.

Section WithLimit.
Variable custom_async_limit : option nat.

Definition createIndex (connections : registry) (connectionName : string)
    (collectionName : string) (settings : json) (index : json) : prog :=
  run (
    client ← getClient connections connectionName;
    indexName ← getIndex connections connectionName collectionName index;
    Ret (call client M_indices_exists
           {| p_index := indexName; p_type := None; p_id := None;
              p_body := None |}
           (λ r, match r with
                 | inl err => Callback (Some err) None
                 | inr true => Callback (Some (Error "Index already exists.")) None
                 | inr false =>
                     call client M_indices_create
                       {| p_index := indexName; p_type := None; p_id := None;
                          p_body := if isNullish settings then None
                                    else Some (PSettings settings) |}
                       (relay Some)
                 end))).

Definition putMapping (connections : registry) (connectionName : string)
    (collectionName : string) (index : json) : prog :=
  run (
    client ← getClient connections connectionName;
    indexName ← getIndex connections connectionName collectionName index;
    typeName ← getType connections connectionName collectionName;
    attributes ← getAttributes connections connectionName collectionName;
    match each (keys attributes)
            (λ e properties,
               (match getProp e attributes with
                | Some a => if negb (isNullish (a_mapping a))
                            then assign e (a_mapping a) properties
                            else properties
                | None => properties
                end, None)) [] with
    | (_, Some err) => Ret (Callback (Some err) None)
    | ([], None) =>
        Ret (Callback None
               (Some (JStr ("No mapping defined for the " +:+ dquote +:+
                            toString indexName +:+ dquote +:+ " index."))))
    | (properties, None) =>
        Ret (call client M_indices_putMapping
               (withBody (PProperties properties) (request indexName typeName))
               (relay Some))
    end).

Definition find (connections : registry) (connectionName : string)
    (collectionName : string) (options : criteria) (index : json) : prog :=
  run (
    client ← getClient connections connectionName;
    indexName ← getIndex connections connectionName collectionName index;
    typeName ← getType connections connectionName collectionName;
    body ← findBody options;
    Ret (call client M_search
           (withBody (PQuery body) (request indexName typeName))
           (λ r, match r with
                 | inl err => Callback (Some err) None
                 | inr res =>
                     Mapper.getHits custom_async_limit res
                       (λ err results,
                          match err with
                          | Some err => Callback (Some err) None
                          | None => Callback None results
                          end)
                 end))).

(** The fetch by id that follows [client.index] and [client.update]. *)
Definition fetch (client : handle) (indexName typeName : json)
    (r : error + written) : prog :=
  match r with
  | inl err => Callback (Some err) None
  | inr res =>
      call client M_get (withId (written_id res) (request indexName typeName))
        (λ r, match r with
              | inl err => Callback (Some err) None
              | inr res => Callback None (Some (Mapper.hitToModel res))
              end)
  end.

Definition create (connections : registry) (connectionName : string)
    (collectionName : string) (values : loc) (h : heap) (index : json)
    : prog :=
  run (
    client ← getClient connections connectionName;
    indexName ← getIndex connections connectionName collectionName index;
    typeName ← getType connections connectionName collectionName;
    attributes ← getAttributes connections connectionName collectionName;
    restrictedValues ← Restrictor.restrictAttributes attributes values h;
    Ret (call client M_index
           (withBody (PValues restrictedValues.1 restrictedValues.2)
              (request indexName typeName))
           (fetch client indexName typeName))).

Definition update (connections : registry) (connectionName : string)
    (collectionName : string) (options : criteria) (values : loc)
    (h : heap) (index : json) : prog :=
  run (
    client ← getClient connections connectionName;
    indexName ← getIndex connections connectionName collectionName index;
    typeName ← getType connections connectionName collectionName;
    primaryKeyField ← getPrimaryKeyField connections connectionName collectionName;
    attributes ← getAttributes connections connectionName collectionName;
    restrictedValues ← Restrictor.restrictAttributes attributes values h;
    w ← whereOf options;
    if isNullish (getJ primaryKeyField w)
    then Ret (Callback (Some missingKey) None)
    else
      Ret (call client M_update
             (withBody (PDoc restrictedValues.1 restrictedValues.2)
                (withId (getJ primaryKeyField w) (request indexName typeName)))
             (fetch client indexName typeName))).

Definition destroy (connections : registry) (connectionName : string)
    (collectionName : string) (options : criteria) (index : json) : prog :=
  run (
    client ← getClient connections connectionName;
    indexName ← getIndex connections connectionName collectionName index;
    typeName ← getType connections connectionName collectionName;
    w ← whereOf options;
    if isNullish (getJ "primaryKey" w)
    then Ret (Callback (Some missingKey) None)
    else
      Ret (call client M_delete
             (withId (getJ "primaryKey" w) (request indexName typeName))
             (λ r, match r with
                   | inl err => Callback (Some err) None
                   | inr _ => Callback None None
                   end))).

(** Get an individual record by its id. *)
Definition get (connections : registry) (connectionName : string)
    (collectionName : string) (primaryKey : json) (index : json) : prog :=
  run (
    client ← getClient connections connectionName;
    indexName ← getIndex connections connectionName collectionName index;
    typeName ← getType connections connectionName collectionName;
    Ret (call client M_get (withId primaryKey (request indexName typeName))
           (λ r, match r with
                 | inl err => Callback (Some err) None
                 | inr res => Callback None (Some (Mapper.hitToModel res))
                 end))).

(** Get multiple records by their ids. *)
Definition mget (connections : registry) (connectionName : string)
    (collectionName : string) (primaryKeys : json) (index : json) : prog :=
  run (
    client ← getClient connections connectionName;
    indexName ← getIndex connections connectionName collectionName index;
    typeName ← getType connections connectionName collectionName;
    Ret (call client M_mget
           (withBody (PIds primaryKeys) (request indexName typeName))
           (λ r, match r with
                 | inl err => Callback (Some err) None
                 | inr res =>
                     Mapper.getFound custom_async_limit res
                       (λ err results,
                          match err with
                          | Some err => Callback (Some err) None
                          | None => Callback None results
                          end)
                 end))).

Definition delete (connections : registry) (connectionName : string)
    (collectionName : string) (primaryKey : json) (index : json) : prog :=
  run (
    client ← getClient connections connectionName;
    indexName ← getIndex connections connectionName collectionName index;
    typeName ← getType connections connectionName collectionName;
    if isNullish primaryKey
    then Ret (Callback (Some missingKey) None)
    else
      Ret (call client M_delete (withId primaryKey (request indexName typeName))
             (λ r, match r with
                   | inl err => Callback (Some err) None
                   | inr _ => Callback None None
                   end))).
End WithLimit.

End Adapter.

(** The methods of the earlier variant that differ in what they hand to
    the client or to the callback. *)
Module LegacyAdapter.
Import Registry Translator.

Definition find (connections : registry) (connectionName : string)
    (collectionName : string) (options : criteria) (index : json) : prog :=
  run (
    client ← Adapter.getClient connections connectionName;
    indexName ← Adapter.getIndex connections connectionName collectionName index;
    typeName ← Adapter.getType connections connectionName collectionName;
    Ret (call client M_search
           (Adapter.withBody (PQuery (LegacyTranslator.findBody options))
              (Adapter.request indexName typeName))
           (λ r, match r with
                 | inl err => Callback (Some err) None
                 | inr res =>
                     LegacyMapper.getHits res
                       (λ err results,
                          match err with
                          | Some err => Callback (Some err) None
                          | None => Callback None results
                          end)
                 end))).

Definition update (connections : registry) (connectionName : string)
    (collectionName : string) (options : criteria) (values : loc)
    (h : heap) (index : json) : prog :=
  run (
    client ← Adapter.getClient connections connectionName;
    indexName ← Adapter.getIndex connections connectionName collectionName index;
    typeName ← Adapter.getType connections connectionName collectionName;
    attributes ← Adapter.getAttributes connections connectionName collectionName;
    restrictedValues ← LegacyRestrictor.restrictAttributes attributes values h;
    w ← Adapter.whereOf options;
    if isNullish (getJ "primaryKey" w)
    then Ret (Callback (Some missingKey) None)
    else
      Ret (call client M_update
             (Adapter.withBody (PDoc restrictedValues.1 restrictedValues.2)
                (Adapter.withId (getJ "primaryKey" w)
                   (Adapter.request indexName typeName)))
             (λ r, match r with
                   | inl err => Callback (Some err) None
                   | inr res => Callback None (Some (written_raw res))
                   end))).

Definition destroy (connections : registry) (connectionName : string)
    (collectionName : string) (options : criteria) (index : json) : prog :=
  Adapter.destroy connections connectionName collectionName options index.

End LegacyAdapter.

(** ** Closed forms used in the statements *)

(** What [whereFilter] returns, in closed form. *)
Definition filterOf (field : string) (value : json) : json :=
  let parts := split "." field in
  if decide (length parts = 1) then Translator.smartTermOrTermsQuery field value
  else nest (reducerPaths "" (removelast parts))
         (Translator.boolFilter (Translator.smartTermOrTermsQuery field value)).

(** The query that [find] sends: a [bool] filter with one element per
    [where] entry when there is a [where], [match_all] otherwise.  The
    translation never raises. *)
Definition queryDocument (options : Translator.criteria) : json :=
  match Translator.c_where options with
  | Some w =>
      JObj [("bool",
             JObj [("filter", JArr ((λ field, filterOf field (getJ field w)) <$> keys w))])]
  | None => JObj [("match_all", JObj [])]
  end.

(** The filter list that a translator puts in [body.query.bool.filter]. *)
Definition currentFilter (options : Translator.criteria) : option (list json) :=
  match Translator.findBody options with
  | Ret body => queryFilter body
  | Throw _ => None
  end.

Definition legacyFilter (options : Translator.criteria) : option (list json) :=
  queryFilter (LegacyTranslator.findBody options).

(** A dotted field path is translated along its prefixes: the filter at the
    position of [field] is the term or terms clause on the full field name
    inside one nested clause per cumulative prefix, outermost first. *)
Definition nestedAlongPrefixes (options : Translator.criteria)
    (w : list (string * json)) (i : nat) (field : string) : Prop :=
  ∃ filter c,
    currentFilter options = Some filter ∧
    filter !! i = Some c ∧
    c = nest (prefixPaths (split "." field))
          (Translator.boolFilter
             (Translator.smartTermOrTermsQuery field (getJ field w))) ∧
    nestedPaths c = prefixPaths (split "." field).

(** The entry at position [i] got exactly the clause of kind [yes] on its
    field, comparing with [value], and no clause of kind [no]. *)
Definition entryClause (translate : Translator.criteria → option (list json))
    (options : Translator.criteria) (i : nat) (field : string) (value : json)
    (yes no : string) : Prop :=
  ∃ filter c,
    translate options = Some filter ∧
    filter !! i = Some c ∧
    clausesOf yes c = [(field, value)] ∧
    clausesOf no c = [].

(** The entry at position [i] got a clause of kind [kind] that names no
    field, and so no clause on its field. *)
Definition emptyClause (translate : Translator.criteria → option (list json))
    (options : Translator.criteria) (i : nat) (kind : string) : Prop :=
  ∃ filter,
    translate options = Some filter ∧
    filter !! i = Some (JObj [(kind, JObj [])]).

(** A list value, under a field other than [__proto__], gets a terms clause
    on that field with the list. *)
Definition listGetsTerms
    (translate : Translator.criteria → option (list json)) : Prop :=
  ∀ options w i field,
    Translator.c_where options = Some w →
    keys w !! i = Some field →
    field ≠ "__proto__" →
    isArray (getJ field w) = true →
    entryClause translate options i field (getJ field w) "terms" "term".

(** A scalar value, under a field other than [__proto__], gets a term clause
    on that field with the value. *)
Definition scalarGetsTerm
    (translate : Translator.criteria → option (list json)) : Prop :=
  ∀ options w i field,
    Translator.c_where options = Some w →
    keys w !! i = Some field →
    field ≠ "__proto__" →
    isArray (getJ field w) = false →
    entryClause translate options i field (getJ field w) "term" "terms".

(** Any value, under a field other than [__proto__], gets a term clause on
    that field with the value. *)
Definition everyValueGetsTerm
    (translate : Translator.criteria → option (list json)) : Prop :=
  ∀ options w i field,
    Translator.c_where options = Some w →
    keys w !! i = Some field →
    field ≠ "__proto__" →
    entryClause translate options i field (getJ field w) "term" "terms".

(** Criteria with scalar values only and no field [__proto__]: the term
    clauses are those of the fields with their values, one each and in the
    order of the entries, and there is no terms clause. *)
Definition scalarsGetOneTermEach
    (translate : Translator.criteria → option (list json)) : Prop :=
  ∀ options w,
    Translator.c_where options = Some w →
    "__proto__" ∉ keys w →
    (∀ field, field ∈ keys w → isArray (getJ field w) = false) →
    ∃ filter,
      translate options = Some filter ∧
      length filter = length (keys w) ∧
      filter ≫= clausesOf "term" = (λ field, (field, getJ field w)) <$> keys w ∧
      filter ≫= clausesOf "terms" = [].

(** The entry under the field [__proto__] gets a clause that names no
    field: [{terms: {}}] in the current translator when its value is a
    list, [{term: {}}] otherwise and in the earlier translator. *)
Definition protoGetsEmptyClause : Prop :=
  ∀ options w i,
    Translator.c_where options = Some w →
    keys w !! i = Some "__proto__" →
    emptyClause currentFilter options i
      (if isArray (getJ "__proto__" w) then "terms" else "term") ∧
    emptyClause legacyFilter options i "term".

(** What a multi-get hands back for one element of [docs]. *)
Definition foundOrFalse (e : doc) : json :=
  if found e then Mapper.hitToModel (doc_hit e) else JBool false.

(** The index name by precedence: the explicit argument when defined, else
    the configured [index] of the connection when defined, else the
    collection name. *)
Definition resolvedIndex (index : json) (configured : json)
    (collectionName : string) : json :=
  if isNullish index
  then if isNullish configured then JStr collectionName else configured
  else index.

(** The connection [connectionName] is registered as [e] with a live client
    and knows the collection [collectionName] as [c]. *)
Definition registeredWith (connections : Registry.registry)
    (connectionName collectionName : string) (e : Registry.registration)
    (c : Registry.collection) (cl : client) : Prop :=
  connections !! connectionName = Some e ∧
  (∃ conn, Registry.connection e = Some conn ∧
           Registry.this_connection conn = Some cl) ∧
  Registry.collections e !! collectionName = Some c.

(** The criteria carry no value, or a null one, under the key [k]; criteria
    without a [where] carry none. *)
Definition lacksKey (k : string) (options : Translator.criteria) : Prop :=
  isNullish (default JUndefined (getJ k <$> Translator.c_where options)) = true.

(** ** Sample data for the worked instances *)

Definition sampleConfig : connectionConfig :=
  {| identity := Some "es"; cfg_index := JStr "main"; cfg_rest := [] |}.

Definition sampleAttributes : list (string * attribute) :=
  [("name", {| a_type := Some "string"; a_restrictAttributes := None;
               a_skipAttributes := None; a_mapping := JUndefined |});
   ("meta", {| a_type := Some "json"; a_restrictAttributes := Some ["x"];
               a_skipAttributes := None; a_mapping := JUndefined |})].

Definition sampleCollection : Registry.collection :=
  {| Registry.adapter_identity := JStr "user"; Registry.primaryKey := "id";
     Registry._attributes := sampleAttributes |}.

Definition sampleRegistration : Registry.registration :=
  {| Registry.config := sampleConfig;
     Registry.collections := {["user" := sampleCollection]};
     Registry.connection :=
       Some {| Registry.this_config := sampleConfig;
               Registry.this_connection := Some (Client sampleConfig) |} |}.

Definition sampleConnections : Registry.registry :=
  {["es" := sampleRegistration]}.

(** [values = {name: "n", meta: {x: 1, y: 2}}], at location 1. *)
Definition sampleHeap : heap :=
  {[1%positive := Obj [("name", HStr "n"); ("meta", HRef 2%positive)];
    2%positive := Obj [("x", HNum 1); ("y", HNum 2)]]}.

Definition noCriteria : Translator.criteria :=
  {| Translator.c_where := None; Translator.c_skip := JUndefined;
     Translator.c_limit := JUndefined; Translator.c_sort := None |}.

Definition whereCriteria (w : list (string * json)) : Translator.criteria :=
  {| Translator.c_where := Some w; Translator.c_skip := JUndefined;
     Translator.c_limit := JUndefined; Translator.c_sort := None |}.

Definition sampleDocs : list doc :=
  [ {| found := false; doc_hit := {| _id := JNum 1; _source := [] |} |};
    {| found := true;
       doc_hit := {| _id := JNum 2; _source := [("name", JStr "b")] |} |};
    {| found := false; doc_hit := {| _id := JNum 3; _source := [] |} |} ].

Definition failingConnect (this : Registry.Connection) : error + client :=
  inl (ClientError (JStr "no living connections")).

(** A [json] attribute restricted to [fields] and stripped of [skips]. *)
Definition jsonAttribute (fields skips : option (list string)) : attribute :=
  {| a_type := Some "json"; a_restrictAttributes := fields;
     a_skipAttributes := skips; a_mapping := JUndefined |}.

(** [values = {meta: {x: 1, y: 2}}]. *)
Definition heapXY : heap :=
  {[1%positive := Obj [("meta", HRef 2%positive)];
    2%positive := Obj [("x", HNum 1); ("y", HNum 2)]]}.

(** [values = {meta: {x: 1, y: 2, z: 3}}]. *)
Definition heapXYZ : heap :=
  {[1%positive := Obj [("meta", HRef 2%positive)];
    2%positive := Obj [("x", HNum 1); ("y", HNum 2); ("z", HNum 3)]]}.

(** [values = {meta: [{x: 1, y: 2}, {y: 3}]}]. *)
Definition heapList : heap :=
  {[1%positive := Obj [("meta", HRef 2%positive)];
    2%positive := Arr [Some (HRef 3%positive); Some (HRef 4%positive)];
    3%positive := Obj [("x", HNum 1); ("y", HNum 2)];
    4%positive := Obj [("y", HNum 3)]]}.

(** The sub-keys that an attribute definition lets through: those in its
    restrict list, when it has one, that are not in its skip list, when it
    has one. *)
Definition keptKey (a : attribute) (k : string) : bool :=
  match a_restrictAttributes a with
  | Some restrictedFields => bool_decide (k ∈ restrictedFields)
  | None => true
  end &&
  match a_skipAttributes a with
  | Some skipAttributes => negb (bool_decide (k ∈ skipAttributes))
  | None => true
  end.

(** The properties whose key passes [keep]. *)
Definition keepProps (keep : string → bool) (ps : list (string * hval))
    : list (string * hval) :=
  filter (λ kv, keep kv.1 = true) ps.

(** The heap after the objects at [ls] have been cut down to [keep]. *)
Definition restrictCells (keep : string → bool) (ls : list loc) (h : heap) : heap :=
  foldl (λ h l, match h !! l with
                | Some (Obj ps) => <[l := Obj (keepProps keep ps)]> h
                | _ => h
                end) h ls.

(** ** Reading a program *)

(** Every error that the client reports goes to the callback as it is, and
    nothing follows it. *)
Fixpoint passesErrors (pr : prog) : Prop :=
  match pr with
  | Call c m p k =>
      (∀ err, k (inl err) = Callback (Some err) None) ∧
      ∀ r, passesErrors (k (inr r))
  | _ => True
  end.

(** The program issues at most [n] requests, one after the other. *)
Fixpoint atMost (n : nat) (pr : prog) : Prop :=
  match pr with
  | Call c m p k =>
      match n with
      | O => False
      | S n' => ∀ r, atMost n' (k r)
      end
  | _ => True
  end.

(** The sort directive of one entry of [options.sort]: the order under
    the name of the field, ascending for the code 1 and descending for any
    other code; the directive of a field called [__proto__] is empty. *)
Definition sortDirective (entry : string * Z) : json :=
  if decide (entry.1 = "__proto__") then JObj []
  else JObj [(entry.1,
              JObj [("order",
                     JStr (if decide (entry.2 = 1%Z) then "asc" else "desc"))])].


(** A registry with two registrations. *)
Definition otherConfig : connectionConfig :=
  {| identity := Some "logs"; cfg_index := JUndefined; cfg_rest := [] |}.

Definition twoConnections : Registry.registry :=
  <["logs" := {| Registry.config := otherConfig; Registry.collections := ∅;
                 Registry.connection := None |}]> sampleConnections.

(** The program raises an exception. *)
Definition raises (pr : prog) : Prop := ∃ e, pr = Raise e.

(** The connection [connectionName] is registered as [e] with a live
    client. *)
Definition connectedWith (connections : Registry.registry)
    (connectionName : string) (e : Registry.registration) (cl : client) : Prop :=
  connections !! connectionName = Some e ∧
  ∃ conn, Registry.connection e = Some conn ∧
          Registry.this_connection conn = Some cl.

(** The parameters of a request on a document type. *)
Definition onType (index type : json) (id : option json) (body : option payload)
    : params :=
  {| p_index := index; p_type := Some type; p_id := id; p_body := body |}.

(** The parameters of a request on an index. *)
Definition onIndex (index : json) (body : option payload) : params :=
  {| p_index := index; p_type := None; p_id := None; p_body := body |}.



(** The sub-keys that an attribute definition lets through in the elements
    of a list value: those in its restrict list, when it has one. *)
Definition listedKey (a : attribute) (k : string) : bool :=
  match a_restrictAttributes a with
  | Some restrictedFields => bool_decide (k ∈ restrictedFields)
  | None => true
  end.

(** [values = {meta: {x: 1, y: 2}}] with the attribute definitions
    [{name: string, meta: json restricted to fields, without skips}]. *)
Definition namedAttributes (fields skips : option (list string))
    : list (string * attribute) :=
  [("name", {| a_type := Some "string"; a_restrictAttributes := None;
               a_skipAttributes := None; a_mapping := JUndefined |});
   ("meta", jsonAttribute fields skips)].

(** The sub-keys that the earlier variant lets through: those equal to
    every element of the restrict list, when there is one, that are not in
    the skip list, when there is one. *)
Definition legacyKeptKey (a : attribute) (k : string) : bool :=
  match a_restrictAttributes a with
  | Some restrictAttributes => forallb (λ r, bool_decide (k = r)) restrictAttributes
  | None => true
  end &&
  match a_skipAttributes a with
  | Some skipAttributes => negb (bool_decide (k ∈ skipAttributes))
  | None => true
  end.

(** * Properties *)

(** ** The query translator *)

Example split_abc : split "." "a.b.c" = ["a"; "b"; "c"].
Proof. reflexivity. Qed.

Example split_plain : split "." "name" = ["name"].
Proof. reflexivity. Qed.

Example prefixPaths_abc : prefixPaths ["a"; "b"; "c"] = ["a"; "a.b"].
Proof. reflexivity. Qed.

Example whereFilter_abc :
  Translator.whereFilter "a.b.c" (JNum 1) =
  Ret (Translator.nestedClause "a"
         (Translator.nestedClause "a.b"
            (Translator.boolFilter (JObj [("term", JObj [("a.b.c", JNum 1)])])))).
Proof. reflexivity. Qed.

Example findBody_paged :
  Translator.findBody
    {| Translator.c_where := Some [("tag", JArr [JStr "a"; JStr "b"])];
       Translator.c_skip := JNum 20; Translator.c_limit := JNum 10;
       Translator.c_sort := Some [("age", 1%Z); ("name", (-1)%Z)] |} =
  Ret (JObj [("query",
              JObj [("bool",
                     JObj [("filter",
                            JArr [JObj [("terms",
                                         JObj [("tag", JArr [JStr "a"; JStr "b"])])]])])]);
             ("from", JNum 20);
             ("size", JNum 10);
             ("sort", JArr [JObj [("age", JObj [("order", JStr "asc")])];
                            JObj [("name", JObj [("order", JStr "desc")])]])]).
Proof. reflexivity. Qed.

Section TranslatorFacts.
Import Translator.

Lemma split_cons (sep : ascii) (s : string) : ∃ h t, split sep s = h :: t.
Proof.
  induction s as [|c r IH]; simpl; [by eexists _, _|].
  destruct (decide (c = sep)); [by eexists _, _|].
  destruct IH as (h & t & ->). by eexists _, _.
Qed.

Lemma split_length (sep : ascii) (s : string) : (1 ≤ length (split sep s))%nat.
Proof. destruct (split_cons sep s) as (h & t & ->). simpl. lia. Qed.

Lemma mapM_Ret {A B : Type} (f : A → res B) (g : A → B) (l : list A) :
  (∀ x, f x = Ret (g x)) → mapM f l = Ret (g <$> l).
Proof.
  intros Hf. induction l as [|x l IH]; [done|].
  simpl. rewrite Hf. simpl. rewrite IH. done.
Qed.

Lemma reduce_cons count tf v rest key result nq :
  reduce count tf (v :: rest) key result nq =
  st ← reducer count tf result nq v key;
  reduce count tf rest (S key) st.1 st.2.
Proof. done. Qed.

(** The reducer runs through the parts without raising, leaves
    [undefined] as its result and the nested chain in [nestedQuery]. *)
Lemma reduce_nest count tf parts : ∀ key r nq,
  parts ≠ [] →
  key + length parts + 1 = count →
  reduce count tf parts key (Some r) nq =
  Ret (None, hole r (nest (reducerPaths (path r) parts) (boolFilter tf))).
Proof.
  induction parts as [|v rest IH]; intros key r nq Hne Hlen; [done|].
  rewrite reduce_cons. unfold reducer. cbn [length] in Hlen.
  destruct (decide (rest = [])) as [->|Hrest].
  - destruct (Z.ltb_spec (Z.of_nat key) (Z.of_nat count - 2));
      [simpl in Hlen; lia|done].
  - assert (0 < length rest)%nat by (destruct rest; [done|simpl; lia]).
    destruct (Z.ltb_spec (Z.of_nat key) (Z.of_nat count - 2)); [|lia].
    cbn [mbind res_bind fst snd].
    rewrite IH; [done|done|lia].
Qed.

Lemma whereFilter_filterOf field value :
  whereFilter field value = Ret (filterOf field value).
Proof.
  unfold whereFilter, filterOf.
  destruct (split_cons "." field) as (h & t & Hs). rewrite Hs.
  case_decide as Hn; [done|].
  destruct t as [|h' t']; [done|].
  rewrite (reduce_nest _ _ _ 0 _ _); [done| |].
  - rewrite <- Hs. intros Hnil.
    apply (f_equal length) in Hnil. rewrite Hs in Hnil.
    cbn [removelast length] in Hnil. destruct t'; done.
  - rewrite removelast_firstn_len, firstn_length_le; cbn [length]; lia.
Qed.
End TranslatorFacts.

Section PathFacts.

Lemma append_assoc (s1 s2 s3 : string) :
  (s1 +:+ s2) +:+ s3 = s1 +:+ (s2 +:+ s3).
Proof.
  induction s1 as [|c s1 IH]; [done|].
  change (String c ((s1 +:+ s2) +:+ s3) = String c (s1 +:+ (s2 +:+ s3))).
  by f_equal.
Qed.

Lemma concat_cons_ne (sep x : string) (xs : list string) :
  xs ≠ [] → String.concat sep (x :: xs) = x +:+ sep +:+ String.concat sep xs.
Proof. by destruct xs. Qed.

Lemma take_ne_nil {A : Type} (k : nat) (l : list A) :
  (1 ≤ k)%nat → l ≠ [] → take k l ≠ [].
Proof. destruct k, l; simpl; (done || lia). Qed.

(** From a non-empty path on, the reducer extends the path by a dot and the
    next part. *)
Lemma reducerPaths_from (parts : list string) : ∀ p : string,
  p ≠ "" →
  reducerPaths p parts =
  (λ k, p +:+ "." +:+ String.concat "." (take k parts)) <$> seq 1 (length parts).
Proof.
  induction parts as [|v rest IH]; intros p Hp; [done|].
  cbn [reducerPaths length seq fmap list_fmap]. case_decide; [done|].
  f_equal. rewrite IH by (by destruct p).
  rewrite <- (fmap_S_seq 1), <- list_fmap_compose.
  apply Forall_fmap_ext_1, Forall_forall. intros k Hk%elem_of_seq.
  cbn [compose take]. rewrite concat_cons_ne.
  - by rewrite !append_assoc.
  - apply take_ne_nil; [lia|]. destruct rest; [simpl in Hk; lia|done].
Qed.

(** When the first part is not empty, the reducer's paths are the
    cumulative dot-joined prefixes. *)
Lemma reducerPaths_prefixes (parts : list string) :
  hd "" parts ≠ "" →
  reducerPaths "" parts =
  (λ k, String.concat "." (take k parts)) <$> seq 1 (length parts).
Proof.
  destruct parts as [|v rest]; [done|]. cbn [hd]. intros Hv.
  cbn [reducerPaths length seq fmap list_fmap]. case_decide; [|done].
  f_equal. rewrite reducerPaths_from by done.
  rewrite <- (fmap_S_seq 1), <- list_fmap_compose.
  apply Forall_fmap_ext_1, Forall_forall. intros k Hk%elem_of_seq.
  cbn [compose take]. rewrite concat_cons_ne; [done|].
  apply take_ne_nil; [lia|]. destruct rest; [simpl in Hk; lia|done].
Qed.

Lemma prefixPaths_length (parts : list string) :
  length (prefixPaths parts) = (length parts - 1)%nat.
Proof. unfold prefixPaths. by rewrite length_fmap, length_seq. Qed.

Lemma prefixPaths_removelast (parts : list string) :
  (λ k, String.concat "." (take k (removelast parts))) <$>
    seq 1 (length (removelast parts)) = prefixPaths parts.
Proof.
  unfold prefixPaths.
  assert (length (removelast parts) = (length parts - 1)%nat) as ->.
  { rewrite removelast_firstn_len, firstn_length_le; lia. }
  apply Forall_fmap_ext_1, Forall_forall. intros k Hk%elem_of_seq.
  simpl. rewrite firstn_removelast; [done|lia].
Qed.

(** The paths built for a field whose first part is not empty, or that has
    two parts only. *)
Lemma reducerPaths_field (parts : list string) :
  (2 ≤ length parts)%nat →
  hd "" parts ≠ "" ∨ length parts = 2%nat →
  reducerPaths "" (removelast parts) = prefixPaths parts.
Proof.
  intros Hn [Hhd | Htwo].
  - rewrite reducerPaths_prefixes, prefixPaths_removelast; [done|].
    destruct parts as [|a [|b rest]]; simpl in *; (done || lia).
  - destruct parts as [|a [|b [|c rest]]]; simpl in *; (done || lia).
Qed.

End PathFacts.

Section BodyFacts.
Import Translator.

Lemma getProp_setProp_ne {A : Type} (k k' : string) (v : A) (ps : list (string * A)) :
  k ≠ k' → getProp k (setProp k' v ps) = getProp k ps.
Proof.
  intros Hne. induction ps as [|[k0 v0] ps IH]; simpl.
  - by case_decide.
  - destruct (decide (k' = k0)) as [->|]; simpl; repeat case_decide; congruence.
Qed.

Lemma findBody_query (options : criteria) :
  ∃ body, findBody options = Ret (JObj body) ∧
          getProp "query" body = Some (queryDocument options).
Proof.
  unfold findBody.
  rewrite (mapM_Ret _ (λ field, filterOf field (getJ field (whereEntries options))))
    by (intros; apply whereFilter_filterOf).
  cbn [mbind res_bind]. eexists. split; [reflexivity|].
  assert (∀ k v (b : list (string * json)),
            k ≠ "query" → getProp "query" (setProp k v b) = getProp "query" b)
    as Hkeep by (intros; by apply getProp_setProp_ne).
  unfold queryDocument, whereEntries.
  destruct (c_where options) as [w|], (c_sort options) as [sort|];
    repeat (case_match || case_decide);
    rewrite ?Hkeep by done; reflexivity.
Qed.

Lemma currentFilter_where (options : criteria) (w : list (string * json)) :
  c_where options = Some w →
  currentFilter options = Some ((λ field, filterOf field (getJ field w)) <$> keys w).
Proof.
  intros Hw. unfold currentFilter.
  destruct (findBody_query options) as (body & -> & Hq).
  unfold queryFilter, getJ. rewrite Hq. unfold queryDocument. by rewrite Hw.
Qed.

Lemma legacyFilter_where (options : criteria) (w : list (string * json)) :
  c_where options = Some w →
  legacyFilter options =
  Some ((λ field, LegacyTranslator.term field (getJ field w)) <$> keys w).
Proof.
  intros Hw. unfold legacyFilter, LegacyTranslator.findBody, whereEntries.
  by rewrite Hw.
Qed.

Lemma nestedPaths_nest (paths : list string) (filter : json) :
  nestedPaths (nest paths (boolFilter filter)) = paths.
Proof.
  induction paths as [|p ps IH]; [by destruct filter|].
  cbn [nest nestedClause nestedPaths]. case_decide; [by rewrite IH|naive_solver].
Qed.

Lemma clausesOf_nest (kind : string) (paths : list string) (filter : json) :
  clausesOf kind (nest paths (boolFilter filter)) = clausesOf kind filter.
Proof.
  induction paths as [|p ps IH].
  - cbn [nest boolFilter clausesOf].
    destruct filter; (case_decide; [done|naive_solver]).
  - cbn [nest nestedClause clausesOf]. case_decide; [done|naive_solver].
Qed.

Lemma assign_field {A : Type} (field : string) (value : A) :
  field ≠ "__proto__" → assign field value [] = [(field, value)].
Proof. intros Hfield. unfold assign. by rewrite decide_False. Qed.

Lemma clausesOf_smart (kind field : string) (value : json) :
  field ≠ "__proto__" →
  clausesOf kind (smartTermOrTermsQuery field value) =
  if decide ((if isArray value then "terms" else "term") = kind)
  then [(field, value)] else [].
Proof.
  intros Hfield. unfold smartTermOrTermsQuery. rewrite assign_field by done.
  destruct value; cbn;
    (destruct (decide (_ = "bool" ∧ _)) as [[[=] _]|_]; done).
Qed.

Lemma clausesOf_filterOf (kind field : string) (value : json) :
  field ≠ "__proto__" →
  clausesOf kind (filterOf field value) =
  if decide ((if isArray value then "terms" else "term") = kind)
  then [(field, value)] else [].
Proof.
  intros Hfield. unfold filterOf. case_decide.
  - by apply clausesOf_smart.
  - rewrite clausesOf_nest. by apply clausesOf_smart.
Qed.

Lemma clausesOf_legacy_term (kind field : string) (value : json) :
  field ≠ "__proto__" →
  clausesOf kind (LegacyTranslator.term field value) =
  if decide ("term" = kind) then [(field, value)] else [].
Proof.
  intros Hfield. unfold LegacyTranslator.term. rewrite assign_field by done.
  destruct value; cbn;
    (destruct (decide (_ = "bool" ∧ _)) as [[[=] _]|_]; done).
Qed.

Lemma bind_singletons {A B C : Type} (f : A → B) (g : B → list C) (h : A → C)
    (l : list A) :
  (∀ x, x ∈ l → g (f x) = [h x]) → (f <$> l) ≫= g = h <$> l.
Proof.
  induction l as [|x l IH]; intros Hg; [done|].
  cbn. rewrite Hg by left. rewrite IH; [done|].
  intros y Hy. apply Hg. by right.
Qed.

Lemma bind_nils {A B C : Type} (f : A → B) (g : B → list C) (l : list A) :
  (∀ x, x ∈ l → g (f x) = []) → (f <$> l) ≫= g = [].
Proof.
  induction l as [|x l IH]; intros Hg; [done|].
  cbn. rewrite Hg by left. rewrite IH; [done|].
  intros y Hy. apply Hg. by right.
Qed.

End BodyFacts.

Section TranslatorClaims.
Import Translator.

(** C1, as amended.  For every find criteria whose [where] holds, at
    position [i], a dotted field path with [n >= 2] parts whose first part
    is not empty (or that has two parts only), the filter at position [i] is
    the term or terms clause on the full field name wrapped in exactly
    [n - 1] nested clauses, whose paths are the cumulative dot-joined
    prefixes of the field path from the outside in. *)
Theorem dotted_path_nests_along_prefixes
    (options : criteria) (w : list (string * json)) (i : nat) (field : string) :
  c_where options = Some w →
  keys w !! i = Some field →
  (2 ≤ length (split "." field))%nat →
  hd "" (split "." field) ≠ "" ∨ length (split "." field) = 2%nat →
  nestedAlongPrefixes options w i field ∧
  length (prefixPaths (split "." field)) = (length (split "." field) - 1)%nat.
Proof.
  intros Hw Hi Hn Hhd. split; [|apply prefixPaths_length].
  exists ((λ field, filterOf field (getJ field w)) <$> keys w),
         (filterOf field (getJ field w)).
  split; [by apply currentFilter_where|].
  split; [by rewrite list_lookup_fmap, Hi|].
  assert (filterOf field (getJ field w) =
          nest (prefixPaths (split "." field))
            (boolFilter (smartTermOrTermsQuery field (getJ field w)))) as ->.
  { unfold filterOf. case_decide; [lia|]. by rewrite reducerPaths_field. }
  split; [done|apply nestedPaths_nest].
Qed.

Lemma dotted_path_nests_along_prefixes_witness :
  nestedAlongPrefixes
    {| c_where := Some [("a.b.c", JNum 1)]; c_skip := JUndefined;
       c_limit := JUndefined; c_sort := None |}
    [("a.b.c", JNum 1)] 0 "a.b.c" ∧
  length (prefixPaths (split "." "a.b.c")) = 2%nat.
Proof.
  apply (dotted_path_nests_along_prefixes
           {| c_where := Some [("a.b.c", JNum 1)]; c_skip := JUndefined;
              c_limit := JUndefined; c_sort := None |}
           [("a.b.c", JNum 1)] 0 "a.b.c").
  - reflexivity.
  - reflexivity.
  - vm_compute. lia.
  - left. vm_compute. discriminate.
Defined.

(** C1 as stated fails at the field [.a.b], which has three parts: the
    reducer takes an empty accumulated path for its first call and starts
    over at the second part, so the nested paths are [""] and ["a"], while
    the cumulative prefixes are [""] and [".a"]. *)
Lemma leading_dot_breaks_prefixes :
  length (split "." ".a.b") = 3%nat ∧
  currentFilter (whereCriteria [(".a.b", JNum 1)]) =
    Some [nest [""; "a"]
            (Translator.boolFilter (JObj [("term", JObj [(".a.b", JNum 1)])]))] ∧
  prefixPaths (split "." ".a.b") = [""; ".a"] ∧
  ¬ nestedAlongPrefixes (whereCriteria [(".a.b", JNum 1)])
      [(".a.b", JNum 1)] 0 ".a.b".
Proof.
  split; [reflexivity|]. split; [reflexivity|]. split; [reflexivity|].
  intros (filter & c & Hf & Hc & _ & Hp).
  vm_compute in Hf. injection Hf as <-.
  vm_compute in Hc. injection Hc as <-.
  vm_compute in Hp. discriminate.
Qed.

(** [smartTermOrTermsQuery] on a list and on a scalar. *)
Lemma smartTermOrTermsQuery_shape (field : string) (value : json) :
  field ≠ "__proto__" →
  smartTermOrTermsQuery field value =
  if isArray value then JObj [("terms", JObj [(field, value)])]
  else JObj [("term", JObj [(field, value)])].
Proof.
  intros Hfield. unfold smartTermOrTermsQuery. by rewrite assign_field.
Qed.

(** On the field [__proto__] the assignment makes no own property, and the
    clause names no field. *)
Lemma smartTermOrTermsQuery_proto (value : json) :
  smartTermOrTermsQuery "__proto__" value =
    JObj [((if isArray value then "terms" else "term"), JObj [])] ∧
  LegacyTranslator.term "__proto__" value = JObj [("term", JObj [])].
Proof. split; [|done]. unfold smartTermOrTermsQuery. by destruct (isArray value). Qed.

Lemma current_listGetsTerms : listGetsTerms currentFilter.
Proof.
  intros options w i field Hw Hi Hfield Harr.
  eexists _, _. split; [by apply currentFilter_where|].
  split; [by rewrite list_lookup_fmap, Hi|].
  rewrite !clausesOf_filterOf, Harr by done. done.
Qed.

Lemma current_scalarGetsTerm : scalarGetsTerm currentFilter.
Proof.
  intros options w i field Hw Hi Hfield Harr.
  eexists _, _. split; [by apply currentFilter_where|].
  split; [by rewrite list_lookup_fmap, Hi|].
  rewrite !clausesOf_filterOf, Harr by done. done.
Qed.

Lemma current_scalarsGetOneTermEach : scalarsGetOneTermEach currentFilter.
Proof.
  intros options w Hw Hproto Hscalar.
  eexists. split; [by apply currentFilter_where|].
  split; [by rewrite length_fmap|]. split.
  - apply bind_singletons. intros f Hf.
    by rewrite clausesOf_filterOf, (Hscalar f Hf) by (by intros ->).
  - apply bind_nils. intros f Hf.
    by rewrite clausesOf_filterOf, (Hscalar f Hf) by (by intros ->).
Qed.

(** The earlier translator makes a term clause of every entry. *)
Lemma legacy_everyValueGetsTerm : everyValueGetsTerm legacyFilter.
Proof.
  intros options w i field Hw Hi Hfield.
  eexists _, _. split; [by apply legacyFilter_where|].
  split; [by rewrite list_lookup_fmap, Hi|].
  by rewrite !clausesOf_legacy_term by done.
Qed.

Lemma legacy_scalarsGetOneTermEach : scalarsGetOneTermEach legacyFilter.
Proof.
  intros options w Hw Hproto _.
  eexists. split; [by apply legacyFilter_where|].
  split; [by rewrite length_fmap|]. split.
  - apply bind_singletons. intros f Hf.
    by rewrite clausesOf_legacy_term by (by intros ->).
  - apply bind_nils. intros f Hf.
    by rewrite clausesOf_legacy_term by (by intros ->).
Qed.

Lemma proto_gets_empty_clause : protoGetsEmptyClause.
Proof.
  intros options w i Hw Hi. split.
  - eexists. split; [by apply currentFilter_where|].
    rewrite list_lookup_fmap, Hi. cbn [fmap option_fmap option_map].
    unfold filterOf. rewrite decide_True by done.
    by rewrite (proj1 (smartTermOrTermsQuery_proto _)).
  - eexists. split; [by apply legacyFilter_where|].
    by rewrite list_lookup_fmap, Hi.
Qed.

(** C2, as amended.  In the current translator a [where] entry whose value
    is a list gets a terms clause on its field with that list, and one whose
    value is a scalar gets a term clause on its field with that value; in
    the earlier translator every entry gets a term clause on its field with
    its value, whatever the value is; in both, criteria with scalar values
    only yield exactly one term clause per field and no terms clause.  All
    of this is for fields other than [__proto__]: the entry under that
    field gets a clause that names no field. *)
Theorem term_or_terms_by_value :
  listGetsTerms currentFilter ∧
  scalarGetsTerm currentFilter ∧
  scalarsGetOneTermEach currentFilter ∧
  everyValueGetsTerm legacyFilter ∧
  scalarsGetOneTermEach legacyFilter ∧
  protoGetsEmptyClause.
Proof.
  split; [apply current_listGetsTerms|].
  split; [apply current_scalarGetsTerm|].
  split; [apply current_scalarsGetOneTermEach|].
  split; [apply legacy_everyValueGetsTerm|].
  split; [apply legacy_scalarsGetOneTermEach|apply proto_gets_empty_clause].
Qed.

(** A list, a scalar under a dotted field, the list again in the earlier
    translator, and a list under [__proto__]. *)
Lemma term_or_terms_by_value_witness :
  let options := {| c_where := Some [("tag", JArr [JNum 1; JNum 2]);
                                     ("user.name", JStr "x");
                                     ("__proto__", JArr [JNum 3])];
                    c_skip := JUndefined; c_limit := JUndefined;
                    c_sort := None |} in
  entryClause currentFilter options 0 "tag" (JArr [JNum 1; JNum 2]) "terms" "term" ∧
  entryClause currentFilter options 1 "user.name" (JStr "x") "term" "terms" ∧
  entryClause legacyFilter options 0 "tag" (JArr [JNum 1; JNum 2]) "term" "terms" ∧
  emptyClause currentFilter options 2 "terms" ∧
  emptyClause legacyFilter options 2 "term".
Proof.
  intros options.
  destruct term_or_terms_by_value as (Hlist & Hscalar & _ & Hlegacy & _ & Hproto).
  split; [|split; [|split]].
  - apply (Hlist options _ 0 "tag" eq_refl); [reflexivity|discriminate|reflexivity].
  - apply (Hscalar options _ 1 "user.name" eq_refl);
      [reflexivity|discriminate|reflexivity].
  - apply (Hlegacy options _ 0 "tag" eq_refl); [reflexivity|discriminate].
  - exact (Hproto options _ 2 eq_refl eq_refl).
Defined.

(** C2 as stated fails on the earlier translator at [{tag: [1, 2]}]: the
    list value gets a term clause, not a terms clause. *)
Lemma legacy_list_value_gets_term :
  isArray (getJ "tag" [("tag", JArr [JNum 1; JNum 2])]) = true ∧
  legacyFilter (whereCriteria [("tag", JArr [JNum 1; JNum 2])]) =
    Some [JObj [("term", JObj [("tag", JArr [JNum 1; JNum 2])])]] ∧
  ¬ entryClause legacyFilter (whereCriteria [("tag", JArr [JNum 1; JNum 2])])
      0 "tag" (JArr [JNum 1; JNum 2]) "terms" "term".
Proof.
  split; [reflexivity|]. split; [reflexivity|].
  intros (filter & c & Hf & Hc & Hterms & _).
  vm_compute in Hf. injection Hf as <-.
  vm_compute in Hc. injection Hc as <-.
  vm_compute in Hterms. discriminate.
Qed.

(** C2 as stated fails in the current translator too, at an entry under the
    field [__proto__]: [termFilter.term[field] = value] makes no own
    property there, so the scalar gets the clause [{term: {}}], which is
    not on its field. *)
Lemma proto_field_gets_no_clause :
  isArray (getJ "__proto__" [("__proto__", JNum 1)]) = false ∧
  currentFilter (whereCriteria [("__proto__", JNum 1)]) =
    Some [JObj [("term", JObj [])]] ∧
  ¬ entryClause currentFilter (whereCriteria [("__proto__", JNum 1)])
      0 "__proto__" (JNum 1) "term" "terms".
Proof.
  split; [reflexivity|]. split; [reflexivity|].
  intros (filter & c & Hf & Hc & Hterm & _).
  vm_compute in Hf. injection Hf as <-.
  vm_compute in Hc. injection Hc as <-.
  vm_compute in Hterm. discriminate.
Qed.

(** C7, as amended.  For every find criteria that has no [where] clause, the
    current translator's query is [{match_all: {}}], with no [bool] clause
    in it; the earlier translator's query is a [bool] clause with an empty
    filter list. *)
Theorem no_where_matches_all (options : criteria) :
  c_where options = None →
  (∃ body, findBody options = Ret body ∧
           queryOf body = JObj [("match_all", JObj [])] ∧
           queryFilter body = None) ∧
  queryOf (LegacyTranslator.findBody options) =
    JObj [("bool", JObj [("filter", JArr [])])].
Proof.
  intros Hw. split.
  - destruct (findBody_query options) as (body & Hb & Hq).
    exists (JObj body). split; [done|].
    unfold queryOf, queryFilter, getJ. rewrite Hq.
    unfold queryDocument. by rewrite Hw.
  - unfold LegacyTranslator.findBody, whereEntries. by rewrite Hw.
Qed.

Lemma no_where_matches_all_witness :
  (∃ body, findBody {| c_where := None; c_skip := JNum 10;
                       c_limit := JNum 5; c_sort := Some [("age", 1%Z)] |} = Ret body ∧
           queryOf body = JObj [("match_all", JObj [])] ∧
           queryFilter body = None) ∧
  queryOf (LegacyTranslator.findBody
             {| c_where := None; c_skip := JNum 10;
                c_limit := JNum 5; c_sort := Some [("age", 1%Z)] |}) =
    JObj [("bool", JObj [("filter", JArr [])])].
Proof.
  apply (no_where_matches_all
           {| c_where := None; c_skip := JNum 10;
              c_limit := JNum 5; c_sort := Some [("age", 1%Z)] |}).
  reflexivity.
Defined.

(** C7 as stated fails on the earlier translator: for criteria without a
    [where] clause its query is a [bool] clause with an empty filter list,
    not [match_all]. *)
Lemma legacy_no_where_is_bool_filter :
  Translator.c_where noCriteria = None ∧
  LegacyTranslator.findBody noCriteria =
    JObj [("query", JObj [("bool", JObj [("filter", JArr [])])])] ∧
  queryOf (LegacyTranslator.findBody noCriteria) ≠ JObj [("match_all", JObj [])] ∧
  queryFilter (LegacyTranslator.findBody noCriteria) = Some [].
Proof. repeat split. discriminate. Qed.

End TranslatorClaims.

(** ** The response mapper *)

Section MapperClaims.
Variable custom_async_limit : option nat.

(** An iteratee that pushes one value per element and never fails leaves
    the values in the order of the collection. *)
Lemma eachLimit_push {A B : Type} (f : A → B)
    (iteratee : A → list B → list B * option error) (coll : list A) (limit : nat) :
  (∀ e results, iteratee e results = (results ++ [f e], None)) →
  ∀ results : list B,
    eachLimit coll limit iteratee results = (results ++ (f <$> coll), None).
Proof.
  intros Hit. induction coll as [|e rest IH]; intros results; simpl.
  - by rewrite app_nil_r.
  - rewrite Hit, IH. by rewrite <- app_assoc.
Qed.

Lemma getFound_map (docs : list doc) (cb : option error → option json → prog) :
  Mapper.getFound custom_async_limit docs cb =
  cb None (Some (JArr (foundOrFalse <$> docs))).
Proof.
  unfold Mapper.getFound.
  rewrite (eachLimit_push foundOrFalse); [done|].
  intros e results. unfold foundOrFalse. by destruct (found e).
Qed.

Lemma getHits_map (esResponse : searchResponse)
    (cb : option error → option json → prog) :
  Mapper.getHits custom_async_limit esResponse cb =
  cb None (Some (JArr (if decide (total esResponse = 0%Z) then []
                       else Mapper.hitToModel <$> hits esResponse))).
Proof.
  unfold Mapper.getHits. case_decide; [done|].
  by rewrite (eachLimit_push Mapper.hitToModel).
Qed.

End MapperClaims.

(** ** The adapter methods *)

Section AdapterFacts.
Import Registry Translator Adapter.
Variable custom_async_limit : option nat.

Lemma getIndex_registered (connections : registry)
    (connectionName collectionName : string) (index : json) (e : registration) :
  connections !! connectionName = Some e →
  getIndex connections connectionName collectionName index =
  Ret (resolvedIndex index (cfg_index (config e)) collectionName).
Proof.
  intros He. unfold getIndex, resolvedIndex.
  destruct (isNullish index); [|done].
  rewrite He. by destruct (isNullish (cfg_index (config e))).
Qed.

(** On a registered connection and collection the helpers return what the
    registry holds. *)
Lemma helpers_registered (connections : registry)
    (connectionName collectionName : string) (e : registration)
    (c : collection) (cl : client) (index : json) :
  registeredWith connections connectionName collectionName e c cl →
  getClient connections connectionName = Ret (Some cl) ∧
  getIndex connections connectionName collectionName index =
    Ret (resolvedIndex index (cfg_index (config e)) collectionName) ∧
  getType connections connectionName collectionName = Ret (adapter_identity c) ∧
  getPrimaryKeyField connections connectionName collectionName = Ret (primaryKey c) ∧
  getAttributes connections connectionName collectionName = Ret (_attributes c).
Proof.
  intros (He & (conn & Hconn & Hcl) & Hc).
  split; [|split; [by apply getIndex_registered|]].
  - unfold getClient. by rewrite He, Hconn, Hcl.
  - unfold getType, getPrimaryKeyField, getAttributes, getCollection.
    by rewrite He, Hc.
Qed.

Lemma getHits_requests P (res : searchResponse) :
  allRequests P
    (Mapper.getHits custom_async_limit res
       (λ err results,
          match err with
          | Some err => Callback (Some err) None
          | None => Callback None results
          end)).
Proof. by rewrite getHits_map. Qed.

Lemma getFound_requests P (docs : list doc) :
  allRequests P
    (Mapper.getFound custom_async_limit docs
       (λ err results,
          match err with
          | Some err => Callback (Some err) None
          | None => Callback None results
          end)).
Proof. by rewrite getFound_map. Qed.

(** The requests of a method, once the helpers have answered. *)
Ltac requests :=
  repeat match goal with
         | |- allRequests _ (run (mbind _ (Ret _))) => cbn [mbind res_bind]
         | |- allRequests _ (run (mbind _ (getIndex _ _ _ _))) =>
             erewrite getIndex_registered by eassumption
         | |- p_index _ = _ => reflexivity
         | |- allRequests _ (Mapper.getHits _ _ _) => apply getHits_requests
         | |- allRequests _ (Mapper.getFound _ _ _) => apply getFound_requests
         | |- allRequests _ (run (mbind _ ?m)) =>
             let E := fresh in destruct m eqn:E; cbn [mbind res_bind run]
         | |- allRequests _ (run (Ret _)) => cbn [run]
         | |- allRequests _ (run (Throw _)) => exact I
         | |- allRequests _ (run (if ?b then _ else _)) => destruct b
         | |- allRequests _ (run (match ?x with _ => _ end)) => destruct x
         | |- allRequests _ (call ?c _ _ _) => destruct c; cbn [call]
         | |- allRequests _ (Call _ _ _ _) => cbn [allRequests]; split
         | |- allRequests _ (Raise _) => exact I
         | |- allRequests _ (Callback _ _) => exact I
         | |- allRequests _ (relay _ ?r) => destruct r; exact I
         | |- allRequests _ (fetch _ _ _ ?r) => destruct r; cbn [fetch]
         | |- allRequests _ (match ?r with _ => _ end) => destruct r
         | |- ∀ _, _ => intro
         end.

(** C9.  The index name of every request of every method is resolved by one
    precedence: the explicit [index] argument when defined, else the
    configured [index] of the registered connection when defined, else the
    collection name. *)
Theorem index_by_precedence (connections : registry)
    (connectionName collectionName : string) (index : json) (e : registration) :
  connections !! connectionName = Some e →
  let resolved := resolvedIndex index (cfg_index (config e)) collectionName in
  let uses := allRequests (λ _ p, p_index p = resolved) in
  getIndex connections connectionName collectionName index = Ret resolved ∧
  (∀ settings, uses (createIndex connections connectionName collectionName settings index)) ∧
  uses (putMapping connections connectionName collectionName index) ∧
  (∀ options, uses (find custom_async_limit connections connectionName collectionName options index)) ∧
  (∀ values h, uses (create connections connectionName collectionName values h index)) ∧
  (∀ options values h, uses (update connections connectionName collectionName options values h index)) ∧
  (∀ options, uses (destroy connections connectionName collectionName options index)) ∧
  (∀ primaryKey, uses (get connections connectionName collectionName primaryKey index)) ∧
  (∀ primaryKeys, uses (mget custom_async_limit connections connectionName collectionName primaryKeys index)) ∧
  (∀ primaryKey, uses (delete connections connectionName collectionName primaryKey index)).
Proof.
  intros He resolved uses. subst uses.
  split; [by apply getIndex_registered|].
  repeat split; intros;
    unfold createIndex, putMapping, find, create, update, destroy, get, mget,
      delete, withBody, withId, request;
    requests.
Qed.

End AdapterFacts.

Lemma sample_registered :
  registeredWith sampleConnections "es" "user" sampleRegistration
    sampleCollection (Client sampleConfig).
Proof. split; [done|]. split; [by eexists|done]. Qed.

Lemma index_by_precedence_witness :
  sampleConnections !! "es" = Some sampleRegistration ∧
  Adapter.getIndex sampleConnections "es" "user" JUndefined = Ret (JStr "main") ∧
  allRequests (λ _ p, p_index p = JStr "main")
    (Adapter.get sampleConnections "es" "user" (JNum 7) JUndefined).
Proof.
  split; [reflexivity|].
  pose proof (index_by_precedence None sampleConnections "es" "user" JUndefined
                sampleRegistration eq_refl) as H.
  cbv zeta in H.
  destruct H as (Hindex & _ & _ & _ & _ & _ & _ & Hget & _).
  split; [exact Hindex|exact (Hget (JNum 7))].
Defined.

(** The three levels of the precedence, and a request that carries the
    resolved name. *)
Example getIndex_levels :
  Adapter.getIndex sampleConnections "es" "user" (JStr "given") = Ret (JStr "given") ∧
  Adapter.getIndex sampleConnections "es" "user" JUndefined = Ret (JStr "main") ∧
  Adapter.getIndex
    {["es" := {| Registry.config := {| identity := Some "es";
                                       cfg_index := JUndefined; cfg_rest := [] |};
                 Registry.collections := ∅; Registry.connection := None |}]}
    "es" "user" JNull = Ret (JStr "user") ∧
  ∃ k, Adapter.get sampleConnections "es" "user" (JNum 7) JUndefined =
       Call (Client sampleConfig) M_get
         {| p_index := JStr "main"; p_type := Some (JStr "user");
            p_id := Some (JNum 7); p_body := None |} k.
Proof. repeat split. by eexists. Qed.

Section MapperAtAdapter.
Import Registry Translator Adapter.
Variable custom_async_limit : option nat.

(** C3.  For every mget request over a list of identifiers, on a registered
    connection and collection, the adapter issues one [mget] request for
    them; when the client answers with one element of [docs] per requested
    identifier, in order, the callback receives a list of the same length
    that holds, at the position of each identifier, its record when it was
    found and [false] when it was not. *)
Theorem mget_results_follow_ids (connections : registry)
    (connectionName collectionName : string) (e : registration)
    (c : collection) (cl : client) (ids : list json) (index : json) :
  registeredWith connections connectionName collectionName e c cl →
  ∃ p k,
    mget custom_async_limit connections connectionName collectionName
      (JArr ids) index = Call cl M_mget p k ∧
    p_body p = Some (PIds (JArr ids)) ∧
    ∀ docs : list doc,
      (λ d, _id (doc_hit d)) <$> docs = ids →
      ∃ results,
        k (inr docs) = Callback None (Some (JArr results)) ∧
        length results = length ids ∧
        ∀ i id, ids !! i = Some id →
          ∃ d, docs !! i = Some d ∧ _id (doc_hit d) = id ∧
               results !! i =
                 Some (if found d then Mapper.hitToModel (doc_hit d)
                       else JBool false).
Proof.
  intros Hreg.
  destruct (helpers_registered _ _ _ _ _ _ index Hreg) as (Hcl & Hidx & Hty & _).
  unfold mget. rewrite Hcl, Hidx, Hty. cbn [mbind res_bind run call].
  eexists _, _. split; [reflexivity|]. split; [reflexivity|].
  intros docs Hdocs. exists (foundOrFalse <$> docs).
  split; [by rewrite getFound_map|].
  split; [by rewrite <- Hdocs, !length_fmap|].
  intros i id Hi. rewrite <- Hdocs, list_lookup_fmap in Hi.
  destruct (docs !! i) as [d|] eqn:Hd; [|done].
  injection Hi as <-. exists d. split; [done|]. split; [done|].
  by rewrite list_lookup_fmap, Hd.
Qed.

(** In the current variant a response whose hit total is zero is answered
    with the empty list, whatever its [hits] hold. *)
Lemma getHits_zero_total (esResponse : searchResponse)
    (cb : option error → option json → prog) :
  total esResponse = 0%Z →
  Mapper.getHits custom_async_limit esResponse cb = cb None (Some (JArr [])).
Proof. intros H0. rewrite getHits_map. by case_decide. Qed.

Lemma find_zero_total (connections : registry)
    (connectionName collectionName : string) (e : registration)
    (c : collection) (cl : client) (options : criteria) (index : json) :
  registeredWith connections connectionName collectionName e c cl →
  ∃ p k,
    find custom_async_limit connections connectionName collectionName
      options index = Call cl M_search p k ∧
    ∀ res : searchResponse,
      total res = 0%Z → k (inr res) = Callback None (Some (JArr [])).
Proof.
  intros Hreg.
  destruct (helpers_registered _ _ _ _ _ _ index Hreg) as (Hcl & Hidx & Hty & _).
  destruct (findBody_query options) as (body & Hbody & _).
  unfold find. rewrite Hcl, Hidx, Hty, Hbody. cbn [mbind res_bind run call].
  eexists _, _. split; [reflexivity|].
  intros res H0. cbv beta iota. by rewrite getHits_zero_total.
Qed.

(** C8 in the earlier variant: [getHits] returns the empty list to its
    caller and the callback is never invoked. *)
Theorem legacy_getHits_zero_total_is_silent
    (cb : option error → option json → prog) :
  LegacyMapper.getHits {| total := 0; hits := [] |} cb = Silent.
Proof. done. Qed.

Lemma legacy_find_zero_total (connections : registry)
    (connectionName collectionName : string) (e : registration)
    (c : collection) (cl : client) (options : criteria) (index : json) :
  registeredWith connections connectionName collectionName e c cl →
  ∃ p k,
    LegacyAdapter.find connections connectionName collectionName
      options index = Call cl M_search p k ∧
    ∀ res : searchResponse, total res = 0%Z → k (inr res) = Silent.
Proof.
  intros Hreg.
  destruct (helpers_registered _ _ _ _ _ _ index Hreg) as (Hcl & Hidx & Hty & _).
  unfold LegacyAdapter.find. rewrite Hcl, Hidx, Hty.
  cbn [mbind res_bind run call].
  eexists _, _. split; [reflexivity|].
  intros res H0. cbv beta iota. unfold LegacyMapper.getHits. by case_decide.
Qed.

End MapperAtAdapter.

Lemma mget_results_follow_ids_witness :
  ∃ p k,
    Adapter.mget None sampleConnections "es" "user"
      (JArr [JNum 1; JNum 2; JNum 3]) JUndefined =
      Call (Client sampleConfig) M_mget p k ∧
    ∃ results,
      k (inr sampleDocs) = Callback None (Some (JArr results)) ∧
      length results = 3%nat ∧
      results !! 0%nat = Some (JBool false) ∧
      results !! 1%nat = Some (JObj [("name", JStr "b"); ("_id", JNum 2)]) ∧
      results !! 2%nat = Some (JBool false).
Proof.
  destruct (mget_results_follow_ids None sampleConnections "es" "user"
              sampleRegistration sampleCollection (Client sampleConfig)
              [JNum 1; JNum 2; JNum 3] JUndefined sample_registered)
    as (p & k & Hcall & _ & Hk).
  exists p, k. split; [exact Hcall|].
  destruct (Hk sampleDocs eq_refl) as (results & Hres & Hlen & Hpos).
  exists results. split; [exact Hres|]. split; [exact Hlen|].
  destruct (Hpos 0%nat (JNum 1) eq_refl) as (d0 & Hd0 & _ & Hr0).
  destruct (Hpos 1%nat (JNum 2) eq_refl) as (d1 & Hd1 & _ & Hr1).
  destruct (Hpos 2%nat (JNum 3) eq_refl) as (d2 & Hd2 & _ & Hr2).
  injection Hd0 as <-. injection Hd1 as <-. injection Hd2 as <-.
  split; [exact Hr0|]. split; [exact Hr1|exact Hr2].
Defined.

(** Requesting [1, 2, 3] when only [2] exists. *)
Example getFound_one_of_three (cb : option error → option json → prog) :
  Mapper.getFound None sampleDocs cb =
  cb None (Some (JArr [JBool false;
                       JObj [("name", JStr "b"); ("_id", JNum 2)];
                       JBool false])).
Proof. reflexivity. Qed.

(** ** Update and destroy without a primary key *)

Section MissingKey.
Import Registry Translator Adapter.

Lemma lacksKey_where (k : string) (options : criteria) (w : list (string * json)) :
  c_where options = Some w →
  lacksKey k options ↔ isNullish (getJ k w) = true.
Proof. intros Hw. unfold lacksKey. by rewrite Hw. Qed.

(** Whatever the registry and the criteria, an update whose criteria lack
    the primary-key value ends before its first request.  The primary-key
    field is not named like a member that every object inherits: under
    such a name [options.where[primaryKeyField]] finds the inherited member
    and the request is issued. *)
Lemma update_lacking_key_no_request (connections : registry)
    (connectionName collectionName : string) (options : criteria)
    (values : loc) (h : heap) (index : json) :
  (∀ pk, getPrimaryKeyField connections connectionName collectionName = Ret pk →
         (pk ∉ objectPrototype) ∧ lacksKey pk options) →
  noRequest (update connections connectionName collectionName options values h index).
Proof.
  intros Hlack. unfold noRequest, update.
  destruct (getClient _ _) as [client|]; cbn [mbind res_bind run]; [|done].
  destruct (getIndex _ _ _ _) as [indexName|]; cbn [mbind res_bind run]; [|done].
  destruct (getType _ _ _) as [typeName|]; cbn [mbind res_bind run]; [|done].
  destruct (getPrimaryKeyField _ _ _) as [pk|]; cbn [mbind res_bind run]; [|done].
  destruct (getAttributes _ _ _) as [attributes|]; cbn [mbind res_bind run]; [|done].
  destruct (Restrictor.restrictAttributes _ _ _) as [rv|];
    cbn [mbind res_bind run]; [|done].
  destruct (Hlack pk eq_refl) as [_ Hlacks]. unfold lacksKey in Hlacks.
  unfold whereOf.
  destruct (c_where options) as [w|]; cbn [mbind res_bind run]; [|done].
  simpl in Hlacks. by rewrite Hlacks.
Qed.

Lemma destroy_lacking_key_no_request (connections : registry)
    (connectionName collectionName : string) (options : criteria) (index : json) :
  lacksKey "primaryKey" options →
  noRequest (destroy connections connectionName collectionName options index).
Proof.
  intros Hlack. unfold noRequest, destroy.
  destruct (getClient _ _) as [client|]; cbn [mbind res_bind run]; [|done].
  destruct (getIndex _ _ _ _) as [indexName|]; cbn [mbind res_bind run]; [|done].
  destruct (getType _ _ _) as [typeName|]; cbn [mbind res_bind run]; [|done].
  unfold lacksKey in Hlack. unfold whereOf.
  destruct (c_where options) as [w|]; cbn [mbind res_bind run]; [|done].
  simpl in Hlack. by rewrite Hlack.
Qed.

(** What update and destroy do get right.  On a registered connection and
    collection, criteria that carry a [where] object without the primary-key
    value (the value under the model's primary-key field for update, under
    [primaryKey] for destroy) make the operation invoke the callback with
    an error and do nothing else; for update this supposes that the
    restriction of the values, which comes first, has not raised, and that
    the primary-key field is not named like a member that every object
    inherits.  Whether or not there is a [where] object, criteria that lack
    the value issue no request. *)
Lemma missing_key_errors_before_any_request (connections : registry)
    (connectionName collectionName : string) (e : registration)
    (c : collection) (cl : client) (options : criteria)
    (w : list (string * json)) (values : loc) (h : heap) (index : json) :
  registeredWith connections connectionName collectionName e c cl →
  c_where options = Some w →
  primaryKey c ∉ objectPrototype →
  (isNullish (getJ (primaryKey c) w) = true →
   (∃ rv, Restrictor.restrictAttributes (_attributes c) values h = Ret rv) →
   update connections connectionName collectionName options values h index =
     Callback (Some missingKey) None) ∧
  (isNullish (getJ "primaryKey" w) = true →
   destroy connections connectionName collectionName options index =
     Callback (Some missingKey) None) ∧
  (∀ options' : criteria,
     (lacksKey (primaryKey c) options' →
      noRequest (update connections connectionName collectionName options'
                   values h index)) ∧
     (lacksKey "primaryKey" options' →
      noRequest (destroy connections connectionName collectionName options'
                   index))).
Proof.
  intros Hreg Hw Hown.
  destruct (helpers_registered _ _ _ _ _ _ index Hreg)
    as (Hcl & Hidx & Hty & Hpk & Hattr).
  split; [|split].
  - intros Hnull [rv Hrv]. unfold update.
    rewrite Hcl, Hidx, Hty, Hpk, Hattr. cbn [mbind res_bind].
    rewrite Hrv. unfold whereOf. rewrite Hw.
    cbn [mbind res_bind]. by rewrite Hnull.
  - intros Hnull. unfold destroy.
    rewrite Hcl, Hidx, Hty. unfold whereOf. rewrite Hw.
    cbn [mbind res_bind]. by rewrite Hnull.
  - intros options'. split.
    + intros Hlack. apply update_lacking_key_no_request.
      intros pk Hpk'. rewrite Hpk in Hpk'. by injection Hpk' as <-.
    + apply destroy_lacking_key_no_request.
Qed.

Lemma missing_key_errors_before_any_request_witness :
  Adapter.update sampleConnections "es" "user"
    (whereCriteria [("name", JStr "n")]) 1%positive sampleHeap JUndefined =
    Callback (Some missingKey) None ∧
  Adapter.destroy sampleConnections "es" "user"
    (whereCriteria [("name", JStr "n")]) JUndefined =
    Callback (Some missingKey) None.
Proof.
  split.
  - refine (proj1 (missing_key_errors_before_any_request sampleConnections
                     "es" "user" sampleRegistration sampleCollection
                     (Client sampleConfig) (whereCriteria [("name", JStr "n")])
                     [("name", JStr "n")] 1%positive sampleHeap JUndefined
                     sample_registered eq_refl _) eq_refl _).
    + apply (bool_decide_unpack _). vm_compute. exact I.
    + eexists. vm_compute. reflexivity.
  - refine (proj1 (proj2 (missing_key_errors_before_any_request sampleConnections
                     "es" "user" sampleRegistration sampleCollection
                     (Client sampleConfig) (whereCriteria [("name", JStr "n")])
                     [("name", JStr "n")] 1%positive sampleHeap JUndefined
                     sample_registered eq_refl _)) eq_refl).
    apply (bool_decide_unpack _). vm_compute. exact I.
Defined.

(** C6 at criteria without a [where].  For every update call whose
    criteria lack the primary-key value the callback should receive an
    error; criteria without a [where] lack that value, the connection and
    the collection are registered, the values are restricted without an
    exception, and update raises a [TypeError] on [options.where[...]]
    instead of invoking the callback. *)
Theorem update_without_where_raises :
  registeredWith sampleConnections "es" "user" sampleRegistration
    sampleCollection (Client sampleConfig) ∧
  lacksKey (Registry.primaryKey sampleCollection) noCriteria ∧
  (∃ rv, Restrictor.restrictAttributes (Registry._attributes sampleCollection)
           1%positive sampleHeap = Ret rv) ∧
  Adapter.update sampleConnections "es" "user" noCriteria 1%positive
    sampleHeap JUndefined =
    Raise "TypeError: Cannot read property of undefined" ∧
  Adapter.update sampleConnections "es" "user" noCriteria 1%positive
    sampleHeap JUndefined ≠ Callback (Some missingKey) None.
Proof.
  split; [apply sample_registered|]. split; [reflexivity|].
  split; [eexists; vm_compute; reflexivity|].
  split; [vm_compute; reflexivity|].
  vm_compute. discriminate.
Qed.

(** [values = {meta: [null]}]: the restriction raises on the element, and
    update with it, before the primary key is looked at. *)
Example update_restriction_raises :
  Adapter.update sampleConnections "es" "user"
    (whereCriteria [("name", JStr "n")]) 1%positive
    {[1%positive := Obj [("meta", HRef 2%positive)];
      2%positive := Arr [Some HNull]]} JUndefined =
  Raise "TypeError: Cannot convert undefined or null to object".
Proof. vm_compute. reflexivity. Qed.

(** Destroy does the same on criteria without a [where]. *)
Example destroy_without_where_raises :
  lacksKey "primaryKey" noCriteria ∧
  Adapter.destroy sampleConnections "es" "user" noCriteria JUndefined =
    Raise "TypeError: Cannot read property of undefined".
Proof. split; reflexivity. Qed.

(** The earlier variant reads [where.primaryKey] in both methods, and
    likewise ends with the error before any request. *)
Lemma legacy_update_missing_key (connections : registry)
    (connectionName collectionName : string) (e : registration)
    (c : collection) (cl : client) (options : criteria)
    (w : list (string * json)) (values : loc) (h : heap) (index : json) :
  registeredWith connections connectionName collectionName e c cl →
  c_where options = Some w →
  isNullish (getJ "primaryKey" w) = true →
  (∃ rv, LegacyRestrictor.restrictAttributes (_attributes c) values h = Ret rv) →
  LegacyAdapter.update connections connectionName collectionName options
    values h index = Callback (Some missingKey) None.
Proof.
  intros Hreg Hw Hnull [rv Hrv].
  destruct (helpers_registered _ _ _ _ _ _ index Hreg)
    as (Hcl & Hidx & Hty & Hpk & Hattr).
  unfold LegacyAdapter.update.
  rewrite Hcl, Hidx, Hty, Hattr. cbn [mbind res_bind].
  rewrite Hrv. unfold whereOf. rewrite Hw.
  cbn [mbind res_bind]. by rewrite Hnull.
Qed.

End MissingKey.

(** ** The connection registry *)

Section RegistryClaims.
Import Registry.

Lemma registered_lookup (connections : registry) (id : string) (e : registration) :
  connections !! id = Some e → registered connections id = true.
Proof.
  intros He. unfold registered.
  rewrite (bool_decide_eq_true_2 (is_Some (connections !! id))); [done|by eexists].
Qed.

Lemma registered_false (connections : registry) (id : string) :
  registered connections id = false → connections !! id = None.
Proof.
  unfold registered. intros [H1 _]%orb_false_elim.
  apply bool_decide_eq_false in H1. by apply eq_None_not_Some.
Qed.

(** The second of the two guards of [registerConnection]. *)
Lemma registerConnection_registered
    (this_connect : Connection → error + client)
    (connection : connectionConfig) (collections : option (gmap string collection))
    (connections : registry) (id : string) :
  identity connection = Some id →
  id ≠ "" →
  registered connections id = true →
  registerConnection this_connect connection collections connections =
  (connections, inl (Error "Connection is already registered.")).
Proof.
  intros Hid Hne Hreg. unfold registerConnection. rewrite Hid.
  destruct id as [|a id']; [done|]. by rewrite Hreg.
Qed.

(** C5.  [registerConnection] fails at once, with the registry as it was,
    when the connection identity is missing (absent or empty) and when that
    identity is already registered; in the second case the registration
    that is there keeps its config, its collections and its client handle.
    A second registration of an identity that was registered with success
    fails in this way. *)
Theorem registerConnection_guards
    (this_connect : Connection → error + client)
    (connection : connectionConfig) (collections : option (gmap string collection))
    (connections : registry) :
  (identity connection = None ∨ identity connection = Some "" →
   registerConnection this_connect connection collections connections =
   (connections, inl (Error "Connection is missing an identity."))) ∧
  (∀ id e,
     identity connection = Some id → id ≠ "" →
     connections !! id = Some e →
     registerConnection this_connect connection collections connections =
       (connections, inl (Error "Connection is already registered.")) ∧
     (registerConnection this_connect connection collections connections).1 !! id
       = Some e) ∧
  (∀ id connections1 conn this_connect' connection' collections',
     identity connection = Some id →
     registerConnection this_connect connection collections connections =
       (connections1, inr conn) →
     identity connection' = Some id →
     registerConnection this_connect' connection' collections' connections1 =
       (connections1, inl (Error "Connection is already registered.")) ∧
     connections1 !! id =
       Some {| config := connection;
               Registry.collections := default ∅ collections;
               Registry.connection := Some conn |}).
Proof.
  split; [|split].
  - unfold registerConnection. by intros [-> | ->].
  - intros id e Hid Hne He.
    rewrite (registerConnection_registered _ _ _ _ id) by
      (done || by eapply registered_lookup).
    done.
  - intros id connections1 conn this_connect' connection' collections'
      Hid Hfirst Hid'.
    unfold registerConnection in Hfirst. rewrite Hid in Hfirst.
    destruct id as [|a id']; [done|].
    destruct (registered connections (String a id')); [done|].
    destruct (new_Connection this_connect connection).2 as [err|conn'];
      [done|].
    injection Hfirst as <- <-.
    assert (alter
              (λ e, {| config := config e;
                       Registry.collections := Registry.collections e;
                       Registry.connection := Some conn' |})
              (String a id')
              (<[String a id' :=
                   {| config := connection;
                      Registry.collections := default ∅ collections;
                      Registry.connection := None |}]> connections)
            !! String a id' =
            Some {| config := connection;
                    Registry.collections := default ∅ collections;
                    Registry.connection := Some conn' |}) as Hentry.
    { by rewrite lookup_alter_eq, lookup_insert_eq. }
    split; [|exact Hentry].
    apply (registerConnection_registered _ _ _ _ (String a id')); [done..|].
    by eapply registered_lookup.
Qed.

(** C10.  When [connect] reports an error while a new identity is being
    registered, the callback receives that error, the entry stored for the
    identity stays in the registry with no connection in it, and every later
    [registerConnection] with that identity fails as a duplicate and leaves
    the registry as it is. *)
Theorem failed_connect_leaves_registration
    (this_connect : Connection → error + client)
    (connection : connectionConfig) (collections : option (gmap string collection))
    (connections : registry) (id : string) (err : error) :
  identity connection = Some id →
  id ≠ "" →
  registered connections id = false →
  this_connect {| this_config := connection; this_connection := None |} = inl err →
  ∃ connections1,
    registerConnection this_connect connection collections connections =
      (connections1, inl err) ∧
    connections !! id = None ∧
    connections1 !! id =
      Some {| config := connection;
              Registry.collections := default ∅ collections;
              Registry.connection := None |} ∧
    ∀ this_connect' connection' collections',
      identity connection' = Some id →
      registerConnection this_connect' connection' collections' connections1 =
        (connections1, inl (Error "Connection is already registered.")).
Proof.
  intros Hid Hne Hfree Herr.
  exists (<[id := {| config := connection;
                     Registry.collections := default ∅ collections;
                     Registry.connection := None |}]> connections).
  split; [|split; [by apply registered_false|split]].
  - unfold registerConnection, new_Connection. rewrite Hid.
    destruct id as [|a id']; [done|]. by rewrite Hfree, Herr.
  - by rewrite lookup_insert_eq.
  - intros this_connect' connection' collections' Hid'.
    apply (registerConnection_registered _ _ _ _ id); [done..|].
    eapply registered_lookup. by rewrite lookup_insert_eq.
Qed.

(** The [connect] that ships with the adapter always hands over a client,
    so with it a registration that passes the two guards succeeds. *)
Lemma connect_hands_over_client (this : Connection) :
  connect this = inr (Client (this_config this)).
Proof. done. Qed.

End RegistryClaims.

Lemma registerConnection_guards_witness :
  Registry.registerConnection Registry.connect
    {| identity := None; cfg_index := JUndefined; cfg_rest := [] |} None
    sampleConnections =
    (sampleConnections, inl (Error "Connection is missing an identity.")) ∧
  Registry.registerConnection Registry.connect sampleConfig None sampleConnections =
    (sampleConnections, inl (Error "Connection is already registered.")) ∧
  sampleConnections !! "es" = Some sampleRegistration.
Proof.
  split.
  - apply (proj1 (registerConnection_guards Registry.connect
                    {| identity := None; cfg_index := JUndefined; cfg_rest := [] |}
                    None sampleConnections)).
    left. reflexivity.
  - split; [|reflexivity].
    apply (proj1 (proj2 (registerConnection_guards Registry.connect sampleConfig
                           None sampleConnections))
             "es" sampleRegistration eq_refl);
      [discriminate|reflexivity].
Defined.

Lemma failed_connect_leaves_registration_witness :
  ∃ connections1,
    Registry.registerConnection failingConnect sampleConfig None ∅ =
      (connections1, inl (ClientError (JStr "no living connections"))) ∧
    (∅ : Registry.registry) !! "es" = None ∧
    connections1 !! "es" =
      Some {| Registry.config := sampleConfig; Registry.collections := ∅;
              Registry.connection := None |} ∧
    ∀ this_connect' connection' collections',
      identity connection' = Some "es" →
      Registry.registerConnection this_connect' connection' collections' connections1 =
        (connections1, inl (Error "Connection is already registered.")).
Proof.
  apply (failed_connect_leaves_registration failingConnect sampleConfig None ∅
           "es" (ClientError (JStr "no living connections")));
    [reflexivity|discriminate|reflexivity|reflexivity].
Defined.

(** ** The attribute restrictor *)

Section RestrictorInstances.

(** Restricting [{x: 1, y: 2}] to [["x"]] yields [{x: 1}], in the object
    that was handed in, and the reference that comes back is the one that
    went in. *)
Example restrict_x :
  Restrictor.restrictAttributes [("meta", jsonAttribute (Some ["x"]) None)]
    1%positive heapXY =
  Ret (1%positive, <[2%positive := Obj [("x", HNum 1)]]> heapXY).
Proof. vm_compute. reflexivity. Qed.

Example restrict_xy :
  Restrictor.restrictAttributes [("meta", jsonAttribute (Some ["x"; "y"]) None)]
    1%positive heapXYZ =
  Ret (1%positive,
       <[2%positive := Obj [("x", HNum 1); ("y", HNum 2)]]> heapXYZ).
Proof. vm_compute. reflexivity. Qed.

(** The restriction goes through the elements of a list of objects. *)
Example restrict_list :
  Restrictor.restrictAttributes [("meta", jsonAttribute (Some ["x"]) None)]
    1%positive heapList =
  Ret (1%positive,
       <[4%positive := Obj []]> (<[3%positive := Obj [("x", HNum 1)]]> heapList)).
Proof. vm_compute. reflexivity. Qed.

(** The skip list is looked at after the restriction, on its own. *)
Example skip_y :
  Restrictor.restrictAttributes [("meta", jsonAttribute None (Some ["y"]))]
    1%positive heapXYZ =
  Ret (1%positive,
       <[2%positive := Obj [("x", HNum 1); ("z", HNum 3)]]> heapXYZ).
Proof. vm_compute. reflexivity. Qed.

Example restrict_xy_skip_y :
  Restrictor.restrictAttributes
    [("meta", jsonAttribute (Some ["x"; "y"]) (Some ["y"]))]
    1%positive heapXYZ =
  Ret (1%positive, <[2%positive := Obj [("x", HNum 1)]]> heapXYZ).
Proof. vm_compute. reflexivity. Qed.

(** The skip loop walks the keys of the value itself: on a list these are
    the indexes, so the elements keep the sub-keys of the skip list. *)
Example skip_y_list :
  Restrictor.restrictAttributes [("meta", jsonAttribute None (Some ["y"]))]
    1%positive heapList = Ret (1%positive, heapList).
Proof. vm_compute. reflexivity. Qed.

(** The earlier variant agrees on a restrict list of one element... *)
Example legacy_restrict_x :
  LegacyRestrictor.restrictAttributes [("meta", jsonAttribute (Some ["x"]) None)]
    1%positive heapXY =
  Ret (1%positive, <[2%positive := Obj [("x", HNum 1)]]> heapXY).
Proof. vm_compute. reflexivity. Qed.

(** ... and deletes nothing when the restrict list is empty. *)
Example legacy_restrict_nothing :
  LegacyRestrictor.restrictAttributes [("meta", jsonAttribute (Some []) None)]
    1%positive heapXY = Ret (1%positive, heapXY) ∧
  Restrictor.restrictAttributes [("meta", jsonAttribute (Some []) None)]
    1%positive heapXY = Ret (1%positive, <[2%positive := Obj []]> heapXY).
Proof. split; vm_compute; reflexivity. Qed.

(** C4 in the earlier variant, on a restrict list of two fields: every
    sub-key differs from one of the two, so all of them are deleted, the
    listed ones included. *)
Theorem legacy_restrict_two_fields_deletes_all :
  LegacyRestrictor.restrictAttributes
    [("meta", jsonAttribute (Some ["x"; "y"]) None)] 1%positive heapXYZ =
  Ret (1%positive, <[2%positive := Obj []]> heapXYZ).
Proof. vm_compute. reflexivity. Qed.

(** On a list of objects the keys that the earlier variant walks are the
    indexes of the list, so the elements are deleted from the list and none
    of them is restricted. *)
Lemma legacy_restrict_list_deletes_elements :
  LegacyRestrictor.restrictAttributes [("meta", jsonAttribute (Some ["x"]) None)]
    1%positive heapList =
  Ret (1%positive, <[2%positive := Arr [None; None]]> heapList).
Proof. vm_compute. reflexivity. Qed.

(** The earlier variant raises when a json attribute with a restrict list
    has no value; the current one leaves the values alone. *)
Example legacy_restrict_missing_value :
  LegacyRestrictor.restrictAttributes [("other", jsonAttribute (Some ["x"]) None)]
    1%positive heapXY =
    Throw "TypeError: Cannot convert undefined or null to object" ∧
  Restrictor.restrictAttributes [("other", jsonAttribute (Some ["x"]) None)]
    1%positive heapXY = Ret (1%positive, heapXY).
Proof. split; vm_compute; reflexivity. Qed.

End RestrictorInstances.

Section RestrictorFacts.

Lemma delProp_filter (k : string) (ps : list (string * hval)) :
  delProp k ps = filter (λ kv, kv.1 ≠ k) ps.
Proof.
  induction ps as [|[k' v] ps IH]; [done|].
  cbn [delProp]. rewrite filter_cons. cbn [fst].
  destruct (decide (k = k')) as [->|Hne].
  - by rewrite decide_False by (by intros []).
  - rewrite decide_True by done. by rewrite IH.
Qed.

Lemma filter_ext_in {A : Type} (P Q : A → Prop)
    `{∀ x, Decision (P x)} `{∀ x, Decision (Q x)} (l : list A) :
  (∀ x, x ∈ l → P x ↔ Q x) → filter P l = filter Q l.
Proof.
  induction l as [|x l IH]; intros HPQ; [done|].
  rewrite !filter_cons.
  rewrite IH by (intros y Hy; apply HPQ; by right).
  destruct (decide (P x)) as [HP|HP], (decide (Q x)) as [HQ|HQ];
    try done; exfalso; apply (HPQ x) in HP || apply (HPQ x) in HQ;
    done || by left.
Qed.

Lemma filter_all {A : Type} (P : A → Prop) `{∀ x, Decision (P x)} (l : list A) :
  (∀ x, x ∈ l → P x) → filter P l = l.
Proof.
  induction l as [|x l IH]; intros HP; [done|].
  rewrite filter_cons, decide_True by (apply HP; by left).
  rewrite IH; [done|]. intros y Hy. apply HP. by right.
Qed.

(** A loop over keys taken beforehand, each step of which either leaves the
    object at [l] alone or deletes the key from it, leaves the properties
    whose key passes [keep] or was not in the list. *)
Lemma forEach_keys (keep : string → bool) (l : loc) (h : heap)
    (step : string → heap → res heap) :
  (∀ e ps, step e (<[l := Obj ps]> h) =
           Ret (<[l := Obj (if keep e then ps else delProp e ps)]> h)) →
  ∀ ks ps,
    forEach step ks (<[l := Obj ps]> h) =
    Ret (<[l := Obj (filter (λ kv, keep kv.1 = true ∨ kv.1 ∉ ks) ps)]> h).
Proof.
  intros Hstep. induction ks as [|e ks IH]; intros ps.
  - cbn [forEach]. do 3 f_equal. symmetry. apply filter_all.
    intros kv _. right. apply not_elem_of_nil.
  - cbn [forEach]. rewrite Hstep. cbn [mbind res_bind]. rewrite IH.
    do 3 f_equal. destruct (keep e) eqn:He.
    + apply list_filter_iff. intros kv. rewrite not_elem_of_cons.
      destruct (decide (kv.1 = e)) as [->|]; naive_solver.
    + rewrite delProp_filter, list_filter_filter.
      apply list_filter_iff. intros kv. rewrite not_elem_of_cons.
      destruct (decide (kv.1 = e)) as [Heq|]; [|naive_solver].
      rewrite Heq, He. naive_solver.
Qed.

Lemma filter_keys (keep : string → bool) (ps : list (string * hval)) :
  filter (λ kv, keep kv.1 = true ∨ kv.1 ∉ keys ps) ps = keepProps keep ps.
Proof.
  apply filter_ext_in. intros kv Hkv. split; [|by left].
  intros [?|Hnot]; [done|]. destruct Hnot.
  unfold keys. apply list_elem_of_fmap. by exists kv.
Qed.

(** [restrictObjectAttributes] on an object keeps the listed sub-keys and
    deletes the others, in the object itself. *)
Lemma restrictObjectAttributes_object (restrictedFields : list string)
    (l : loc) (ps : list (string * hval)) (h : heap) :
  h !! l = Some (Obj ps) →
  Restrictor.restrictObjectAttributes restrictedFields (HRef l) h =
  Ret (<[l := Obj (keepProps (λ k, bool_decide (k ∈ restrictedFields)) ps)]> h).
Proof.
  intros Hl. unfold Restrictor.restrictObjectAttributes.
  cbn [objectKeys]. rewrite Hl. cbn [mbind res_bind].
  rewrite <- (insert_id h l (Obj ps) Hl) at 1.
  rewrite (forEach_keys (λ k, bool_decide (k ∈ restrictedFields)) l h).
  - pose proof (filter_keys (λ k, bool_decide (k ∈ restrictedFields)) ps) as Hf.
    cbv beta in Hf. by rewrite Hf.
  - intros e ps'. destruct (bool_decide (e ∈ restrictedFields)); [done|].
    cbn [deleteProp]. rewrite lookup_insert_eq. by rewrite insert_insert_eq.
Qed.

Lemma delProp_idem (e : string) (ps : list (string * hval)) :
  delProp e (delProp e ps) = delProp e ps.
Proof.
  rewrite !delProp_filter, list_filter_filter.
  apply list_filter_iff. naive_solver.
Qed.

Lemma keepProps_keepProps (keep1 keep2 : string → bool) (ps : list (string * hval)) :
  keepProps keep2 (keepProps keep1 ps) = keepProps (λ k, keep1 k && keep2 k) ps.
Proof.
  unfold keepProps. rewrite list_filter_filter.
  apply list_filter_iff. intros kv. rewrite andb_true_iff. naive_solver.
Qed.

Lemma keepProps_idem (keep : string → bool) (ps : list (string * hval)) :
  keepProps keep (keepProps keep ps) = keepProps keep ps.
Proof.
  rewrite keepProps_keepProps. unfold keepProps.
  apply list_filter_iff. intros kv. by rewrite andb_diag.
Qed.

Lemma keepProps_all (ps : list (string * hval)) : keepProps (λ _, true) ps = ps.
Proof. by apply filter_all. Qed.

Section ObjectValue.
(** [values], at [v], holds under the key [name] a reference to the object at
    [l], which is not [values] itself. *)
Variables (v l : loc) (name : string) (vps : list (string * hval)) (h : heap).
Hypothesis Hvalues : h !! v = Some (Obj vps).
Hypothesis Hattribute : getProp name vps = Some (HRef l).
Hypothesis Hapart : l ≠ v.

Lemma read_object (ps : list (string * hval)) :
  read (<[l := Obj ps]> h) v name = HRef l.
Proof.
  unfold read. rewrite lookup_insert_ne, Hvalues by done. by rewrite Hattribute.
Qed.

Lemma read_object_0 : read h v name = HRef l.
Proof. unfold read. by rewrite Hvalues, Hattribute. Qed.

Lemma skipInner_object (e : string) (skipAttributes : list string) :
  ∀ ps,
    forEach (λ s h, if decide (e = s)
                    then deleteProp (read h v name) e h
                    else Ret h) skipAttributes (<[l := Obj ps]> h) =
    Ret (<[l := Obj (if negb (bool_decide (e ∈ skipAttributes)) then ps
                     else delProp e ps)]> h).
Proof.
  induction skipAttributes as [|s rest IH]; intros ps; [done|].
  cbn [forEach]. destruct (decide (e = s)) as [<-|Hne].
  - rewrite read_object. cbn [deleteProp]. rewrite lookup_insert_eq.
    cbn [mbind res_bind]. rewrite insert_insert_eq, IH.
    rewrite (bool_decide_eq_true_2 (e ∈ e :: rest)) by left.
    cbn [negb]. destruct (negb (bool_decide (e ∈ rest))); [done|].
    by rewrite delProp_idem.
  - cbn [mbind res_bind]. rewrite IH.
    assert (bool_decide (e ∈ s :: rest) = bool_decide (e ∈ rest)) as ->; [|done].
    apply bool_decide_ext. rewrite elem_of_cons. naive_solver.
Qed.

Lemma skipLoop_object (skipAttributes : list string) (ps : list (string * hval)) :
  h !! l = Some (Obj ps) →
  Restrictor.skipLoop skipAttributes v name h =
  Ret (<[l := Obj (keepProps (λ k, negb (bool_decide (k ∈ skipAttributes))) ps)]> h).
Proof.
  intros Hl. unfold Restrictor.skipLoop. rewrite read_object_0.
  cbn [objectKeys]. rewrite Hl. cbn [mbind res_bind].
  rewrite <- (insert_id h l (Obj ps) Hl) at 1.
  rewrite (forEach_keys (λ k, negb (bool_decide (k ∈ skipAttributes))) l h).
  - pose proof (filter_keys (λ k, negb (bool_decide (k ∈ skipAttributes))) ps) as Hf.
    cbv beta in Hf. by rewrite Hf.
  - intros e ps'. apply skipInner_object.
Qed.

(** The current variant on an attribute whose value is an object: the
    sub-keys outside the restrict list are deleted, then those in the skip
    list, in the object that [values] refers to. *)
Lemma restrictAttribute_object (attributes : list (string * attribute))
    (a : attribute) (ps : list (string * hval)) :
  getProp name attributes = Some a →
  a_type a = Some "json" →
  h !! l = Some (Obj ps) →
  Restrictor.restrictAttribute attributes v name h =
  Ret (<[l := Obj (keepProps (keptKey a) ps)]> h).
Proof.
  intros Ha Hjson Hl. unfold Restrictor.restrictAttribute.
  rewrite Ha, decide_True by done.
  unfold keptKey.
  destruct (a_restrictAttributes a) as [fields|],
           (a_skipAttributes a) as [skips|];
    rewrite ?read_object_0; cbn [truthy isArrayRef]; rewrite ?Hl;
    rewrite ?(restrictObjectAttributes_object _ _ _ _ Hl);
    cbn [mbind res_bind]; rewrite ?read_object; cbn [truthy].
  - unfold Restrictor.skipLoop. rewrite read_object.
    cbn [objectKeys]. rewrite lookup_insert_eq. cbn [mbind res_bind].
    rewrite (forEach_keys (λ k, negb (bool_decide (k ∈ skips))) l h)
      by (intros; apply skipInner_object).
    pose proof (filter_keys (λ k, negb (bool_decide (k ∈ skips)))
                  (keepProps (λ k, bool_decide (k ∈ fields)) ps)) as Hf.
    cbv beta in Hf. rewrite Hf. by rewrite keepProps_keepProps.
  - do 3 f_equal. unfold keepProps. apply list_filter_iff.
    intros kv. by rewrite andb_true_r.
  - rewrite read_object_0. cbn [truthy].
    rewrite (skipLoop_object _ _ Hl). done.
  - rewrite keepProps_all. by rewrite insert_id.
Qed.

(** The earlier variant's restrict loop deletes a sub-key as soon as one
    element of the list differs from it. *)
Lemma legacyInner_object (e : string) (restrictAttributes : list string) :
  ∀ ps,
    forEach (λ r h, if decide (e ≠ r)
                    then deleteProp (read h v name) e h
                    else Ret h) restrictAttributes (<[l := Obj ps]> h) =
    Ret (<[l := Obj (if forallb (λ r, bool_decide (e = r)) restrictAttributes
                     then ps else delProp e ps)]> h).
Proof.
  induction restrictAttributes as [|r rest IH]; intros ps; [done|].
  cbn [forEach forallb]. destruct (decide (e ≠ r)) as [Hne|Heq].
  - rewrite read_object. cbn [deleteProp]. rewrite lookup_insert_eq.
    cbn [mbind res_bind]. rewrite insert_insert_eq, IH.
    rewrite (bool_decide_eq_false_2 (e = r)) by done. cbn [andb].
    destruct (forallb _ rest); [done|]. by rewrite delProp_idem.
  - cbn [mbind res_bind]. rewrite IH.
    rewrite (bool_decide_eq_true_2 (e = r)) by (by destruct (decide (e = r))).
    done.
Qed.

Lemma legacy_restrictLoop_object (restrictAttributes : list string)
    (ps : list (string * hval)) :
  h !! l = Some (Obj ps) →
  LegacyRestrictor.restrictLoop restrictAttributes v name h =
  Ret (<[l := Obj (keepProps
                     (λ k, forallb (λ r, bool_decide (k = r)) restrictAttributes)
                     ps)]> h).
Proof.
  intros Hl. unfold LegacyRestrictor.restrictLoop. rewrite read_object_0.
  cbn [objectKeys]. rewrite Hl. cbn [mbind res_bind].
  rewrite <- (insert_id h l (Obj ps) Hl) at 1.
  rewrite (forEach_keys
             (λ k, forallb (λ r, bool_decide (k = r)) restrictAttributes) l h).
  - pose proof (filter_keys
                  (λ k, forallb (λ r, bool_decide (k = r)) restrictAttributes) ps)
      as Hf.
    cbv beta in Hf. by rewrite Hf.
  - intros e ps'. apply legacyInner_object.
Qed.

(** With two different fields in the restrict list, the earlier variant
    leaves the object empty. *)
Lemma legacy_restrictLoop_two_fields (restrictAttributes : list string)
    (ps : list (string * hval)) (x y : string) :
  h !! l = Some (Obj ps) →
  x ∈ restrictAttributes → y ∈ restrictAttributes → x ≠ y →
  LegacyRestrictor.restrictLoop restrictAttributes v name h =
  Ret (<[l := Obj []]> h).
Proof.
  intros Hl Hx Hy Hxy. rewrite (legacy_restrictLoop_object _ _ Hl).
  do 3 f_equal. unfold keepProps. clear Hl.
  induction ps as [|kv ps IH]; [done|].
  rewrite filter_cons, decide_False; [done|].
  intros Hall. rewrite forallb_forall in Hall.
  pose proof (Hall x (proj1 (list_elem_of_In _ _) Hx)) as Hkx.
  pose proof (Hall y (proj1 (list_elem_of_In _ _) Hy)) as Hky.
  apply bool_decide_eq_true_1 in Hkx, Hky. congruence.
Qed.

End ObjectValue.

Section ListValue.
(** [values], at [v], holds under the key [name] a reference to the list at
    [la], whose elements are references to the objects at [ls]. *)
Variables (v la : loc) (name : string) (vps : list (string * hval)) (h : heap).
Variables (ls : list loc).
Hypothesis Hvalues : h !! v = Some (Obj vps).
Hypothesis Hattribute : getProp name vps = Some (HRef la).
Hypothesis Hlist : h !! la = Some (Arr ((λ l, Some (HRef l)) <$> ls)).
Hypothesis Hobjects : Forall (λ l, l ≠ la ∧ ∃ ps, h !! l = Some (Obj ps)) ls.

Lemma arrayForEach_objects (restrictedFields : list string) :
  ∀ (rest : list loc) (i : nat) (h' : heap),
    h' !! la = Some (Arr ((λ l, Some (HRef l)) <$> ls)) →
    (∀ j l, rest !! j = Some l → ls !! (i + j)%nat = Some l) →
    Forall (λ l, l ≠ la ∧ ∃ ps, h' !! l = Some (Obj ps)) rest →
    arrayForEach (Restrictor.restrictObjectAttributes restrictedFields) la
      (seq i (length rest)) h' =
    Ret (restrictCells (λ k, bool_decide (k ∈ restrictedFields)) rest h').
Proof.
  induction rest as [|l rest IH]; intros i h' Hla Hat Hobj; [done|].
  apply Forall_cons in Hobj as [[Hne [ps Hl]] Hobj].
  cbn [length seq arrayForEach]. rewrite Hla.
  assert (ls !! i = Some l) as Hi by (rewrite <- (Hat 0%nat l eq_refl); f_equal; lia).
  rewrite list_lookup_fmap, Hi. cbn [fmap option_fmap option_map].
  rewrite (restrictObjectAttributes_object _ _ _ _ Hl). cbn [mbind res_bind].
  rewrite IH.
  - unfold restrictCells. cbn [foldl]. by rewrite Hl.
  - by rewrite lookup_insert_ne.
  - intros j l' Hj. rewrite <- (Hat (S j) l' Hj). f_equal. lia.
  - eapply Forall_impl; [exact Hobj|].
    intros l' [Hne' [ps' Hl']]. split; [done|].
    destruct (decide (l = l')) as [<-|Hll].
    + rewrite lookup_insert_eq. by eexists.
    + rewrite lookup_insert_ne by done. by eexists.
Qed.

(** The current variant on an attribute whose value is a list of objects,
    with a restrict list and no skip list: every element is restricted. *)
Lemma restrictAttribute_list (attributes : list (string * attribute))
    (a : attribute) (restrictedFields : list string) :
  getProp name attributes = Some a →
  a_type a = Some "json" →
  a_restrictAttributes a = Some restrictedFields →
  a_skipAttributes a = None →
  Restrictor.restrictAttribute attributes v name h =
  Ret (restrictCells (λ k, bool_decide (k ∈ restrictedFields)) ls h).
Proof.
  intros Ha Hjson Hfields Hskips. unfold Restrictor.restrictAttribute.
  rewrite Ha, decide_True, Hfields, Hskips by done.
  assert (read h v name = HRef la) as ->
    by (unfold read; by rewrite Hvalues, Hattribute).
  cbn [truthy isArrayRef]. rewrite Hlist, length_fmap.
  by rewrite (arrayForEach_objects restrictedFields ls 0 h).
Qed.

End ListValue.

(** What [restrictCells] leaves at an object it was given and elsewhere. *)
Lemma restrictCells_elsewhere (keep : string → bool) (ls : list loc) :
  ∀ (h : heap) (l : loc), l ∉ ls → restrictCells keep ls h !! l = h !! l.
Proof.
  induction ls as [|l0 ls IH]; intros h l Hl; [done|].
  apply not_elem_of_cons in Hl as [Hne Hl].
  unfold restrictCells in *. cbn [foldl]. rewrite IH by done.
  destruct (h !! l0) as [[ps|es]|]; [|done..]. by rewrite lookup_insert_ne.
Qed.

Lemma restrictCells_object (keep : string → bool) (ls : list loc) :
  ∀ (h : heap) (l : loc) (ps : list (string * hval)),
    l ∈ ls → h !! l = Some (Obj ps) →
    restrictCells keep ls h !! l = Some (Obj (keepProps keep ps)).
Proof.
  induction ls as [|l0 ls IH]; intros h l ps Hin Hl; [by apply elem_of_nil in Hin|].
  unfold restrictCells in *. cbn [foldl].
  destruct (decide (l0 = l)) as [->|Hne].
  - rewrite Hl. destruct (decide (l ∈ ls)) as [Hin'|Hout].
    + rewrite (IH _ l (keepProps keep ps) Hin') by by rewrite lookup_insert_eq.
      by rewrite keepProps_idem.
    + fold (restrictCells keep ls (<[l := Obj (keepProps keep ps)]> h)).
      by rewrite restrictCells_elsewhere, lookup_insert_eq.
  - apply elem_of_cons in Hin as [->|Hin]; [done|].
    apply IH; [done|].
    destruct (h !! l0) as [[ps0|es]|]; [|done..]. by rewrite lookup_insert_ne.
Qed.

Lemma getProp_is_Some {A : Type} (k : string) (ps : list (string * A)) :
  k ∈ keys ps ↔ is_Some (getProp k ps).
Proof.
  unfold keys. induction ps as [|[k' x] ps IH]; cbn [getProp fmap list_fmap fst].
  - split; [by intros ?%elem_of_nil|by intros [? ?]].
  - rewrite elem_of_cons. case_decide; [naive_solver|].
    rewrite IH. naive_solver.
Qed.

Lemma forEach_idle {A : Type} (step : A → heap → res heap) (ks : list A) (h : heap) :
  (∀ k h', k ∈ ks → step k h' = Ret h') → forEach step ks h = Ret h.
Proof.
  induction ks as [|k ks IH]; intros Hidle; [done|].
  cbn [forEach]. rewrite Hidle by left. cbn [mbind res_bind].
  apply IH. intros k' h' Hk'. apply Hidle. by right.
Qed.

(** A loop in which one key only has an effect. *)
Lemma forEach_single (step : string → heap → res heap) (name : string)
    (ks : list string) (h h1 : heap) :
  NoDup ks → name ∈ ks →
  (∀ k h', k ∈ ks → k ≠ name → step k h' = Ret h') →
  step name h = Ret h1 →
  forEach step ks h = Ret h1.
Proof.
  intros Hnodup Hin Hidle Hstep.
  induction ks as [|k ks IH]; [by apply elem_of_nil in Hin|].
  apply NoDup_cons in Hnodup as [Hk Hnodup]. cbn [forEach].
  destruct (decide (k = name)) as [->|Hne].
  - rewrite Hstep. cbn [mbind res_bind]. apply forEach_idle.
    intros k' h' Hk'. apply Hidle; [by right|]. by intros ->.
  - rewrite Hidle by (done || by left). cbn [mbind res_bind].
    apply elem_of_cons in Hin as [->|Hin]; [done|].
    apply IH; [done..|]. intros k' h' Hk'. apply Hidle. by right.
Qed.

(** The current variant, whole: when [name] is the one attribute of type
    json and its value is an object, [restrictAttributes] returns the
    reference it was given and has cut that object down, where it lies, to
    the sub-keys that the restrict list and the skip list let through. *)
Lemma restrictAttributes_object (attributes : list (string * attribute))
    (name : string) (a : attribute) (v l : loc)
    (vps ps : list (string * hval)) (h : heap) :
  NoDup (keys attributes) →
  getProp name attributes = Some a →
  a_type a = Some "json" →
  (∀ n a', n ≠ name → getProp n attributes = Some a' → a_type a' ≠ Some "json") →
  h !! v = Some (Obj vps) →
  getProp name vps = Some (HRef l) →
  l ≠ v →
  h !! l = Some (Obj ps) →
  Restrictor.restrictAttributes attributes v h =
  Ret (v, <[l := Obj (keepProps (keptKey a) ps)]> h).
Proof.
  intros Hnodup Ha Hjson Hothers Hv Hname Hapart Hl.
  unfold Restrictor.restrictAttributes.
  rewrite (forEach_single _ name _ h (<[l := Obj (keepProps (keptKey a) ps)]> h));
    [done|done| | |].
  - apply getProp_is_Some. by eexists.
  - intros n h' [a' Hn]%getProp_is_Some Hne.
    unfold Restrictor.restrictAttribute. rewrite Hn.
    by rewrite decide_False by (by eapply Hothers).
  - by eapply restrictAttribute_object.
Qed.

End RestrictorFacts.

(** The instance of the specification: [{x: 1, y: 2}] restricted to [["x"]]. *)
Example restrictAttributes_object_xy :
  Restrictor.restrictAttributes [("meta", jsonAttribute (Some ["x"]) None)]
    1%positive heapXY =
  Ret (1%positive, <[2%positive := Obj [("x", HNum 1)]]> heapXY).
Proof.
  apply (restrictAttributes_object _ "meta" (jsonAttribute (Some ["x"]) None)
           1%positive 2%positive [("meta", HRef 2%positive)]
           [("x", HNum 1); ("y", HNum 2)] heapXY);
    try reflexivity.
  - apply NoDup_singleton.
  - intros n a' Hne Hn. cbn in Hn. by case_decide.
  - discriminate.
Qed.

(** * Further properties of the adapter *)

(** ** Registration, teardown and the client handle *)

Section RegistryMore.
Import Registry.

(** X1.  Teardown with an identity removes the entry of that identity and leaves
    every other entry as it is; teardown with the empty string as identity
    clears the whole registry, as teardown without an identity does. *)
Theorem teardown_removes_one (connections : registry) (c other : string) :
  c ≠ "" →
  other ≠ c →
  teardown (Some c) connections !! c = None ∧
  teardown (Some c) connections !! other = connections !! other ∧
  teardown (Some "") connections = ∅ ∧
  teardown None connections = ∅.
Proof.
  intros Hc Hother. unfold teardown.
  destruct c as [|a c']; [done|].
  destruct (registered connections (String a c')) eqn:Hreg.
  - by rewrite lookup_delete_eq, lookup_delete_ne.
  - by rewrite (registered_false _ _ Hreg).
Qed.

(** X2.  Whether or not the connect succeeded, tearing down the identity that a
    registration has just stored gives back the registry as it was before,
    so that the identity can be registered again. *)
Theorem teardown_undoes_register
    (this_connect : Connection → error + client)
    (connection : connectionConfig) (collections : option (gmap string collection))
    (connections : registry) (id : string) :
  identity connection = Some id →
  id ≠ "" →
  registered connections id = false →
  teardown (Some id)
    (registerConnection this_connect connection collections connections).1 =
    connections ∧
  registered
    (teardown (Some id)
       (registerConnection this_connect connection collections connections).1)
    id = false.
Proof.
  intros Hid Hne Hfree.
  assert (teardown (Some id)
            (registerConnection this_connect connection collections connections).1 =
          connections) as Hback; [|by rewrite Hback].
  pose proof (registered_false _ _ Hfree) as Hnone.
  unfold registerConnection. rewrite Hid.
  destruct id as [|a id']; [done|]. rewrite Hfree.
  unfold teardown.
  destruct ((new_Connection this_connect connection).2) as [err|conn]; cbn [fst].
  - rewrite (registered_lookup _ _ _ (lookup_insert_eq _ _ _)).
    by rewrite delete_insert_id.
  - erewrite registered_lookup
      by (rewrite lookup_alter_eq, lookup_insert_eq; reflexivity).
    rewrite delete_alter_eq. by rewrite delete_insert_id.
Qed.

(** X3.  With the [connect] that ships, registering a new identity hands the
    callback a [Connection] that holds the client made from the connection
    configuration; from then on [getClient] returns that client and
    [getIndex] reads the configured index; the other registrations stay as
    they were. *)
Theorem register_opens_client
    (connection : connectionConfig) (collections : option (gmap string collection))
    (connections : registry) (id : string) :
  identity connection = Some id →
  id ≠ "" →
  registered connections id = false →
  ∃ connections1,
    registerConnection connect connection collections connections =
      (connections1,
       inr {| this_config := connection;
              this_connection := Some (Client connection) |}) ∧
    Adapter.getClient connections1 id = Ret (Some (Client connection)) ∧
    (∀ collectionName index,
       Adapter.getIndex connections1 id collectionName index =
       Ret (resolvedIndex index (cfg_index connection) collectionName)) ∧
    ∀ other, other ≠ id → connections1 !! other = connections !! other.
Proof.
  intros Hid Hne Hfree. eexists. split; [|split; [|split]].
  - unfold registerConnection, new_Connection, connect. rewrite Hid.
    destruct id as [|a id']; [done|]. rewrite Hfree. reflexivity.
  - unfold Adapter.getClient. by rewrite lookup_alter_eq, lookup_insert_eq.
  - intros collectionName index.
    erewrite getIndex_registered
      by (rewrite lookup_alter_eq, lookup_insert_eq; reflexivity).
    done.
  - intros other Hother. by rewrite lookup_alter_ne, lookup_insert_ne.
Qed.

End RegistryMore.

Lemma teardown_removes_one_witness :
  Registry.teardown (Some "logs") twoConnections !! "logs" = None ∧
  Registry.teardown (Some "logs") twoConnections !! "es" = Some sampleRegistration.
Proof.
  destruct (teardown_removes_one twoConnections "logs" "es") as (H1 & H2 & _);
    [discriminate..|].
  split; [exact H1|]. rewrite H2. reflexivity.
Defined.

Lemma teardown_undoes_register_witness :
  Registry.teardown (Some "logs")
    (Registry.registerConnection failingConnect otherConfig None
       sampleConnections).1 = sampleConnections.
Proof.
  exact (proj1 (teardown_undoes_register failingConnect otherConfig None
                  sampleConnections "logs" eq_refl ltac:(discriminate) eq_refl)).
Defined.

Lemma register_opens_client_witness :
  ∃ connections1,
    Registry.registerConnection Registry.connect otherConfig None sampleConnections =
      (connections1,
       inr {| Registry.this_config := otherConfig;
              Registry.this_connection := Some (Client otherConfig) |}) ∧
    Adapter.getClient connections1 "logs" = Ret (Some (Client otherConfig)) ∧
    connections1 !! "es" = Some sampleRegistration.
Proof.
  destruct (register_opens_client otherConfig None sampleConnections "logs"
              eq_refl ltac:(discriminate) eq_refl)
    as (connections1 & Hreg & Hclient & _ & Hothers).
  exists connections1. split; [exact Hreg|]. split; [exact Hclient|].
  rewrite Hothers by discriminate. reflexivity.
Defined.

(** ** What every method does with the client *)

Section EveryMethod.
Import Registry Translator.
Variable custom_async_limit : option nat.

(** The nine methods, as one family. *)
Ltac methods :=
  unfold Adapter.createIndex, Adapter.putMapping, Adapter.find, Adapter.create,
    Adapter.update, Adapter.destroy, Adapter.get, Adapter.mget, Adapter.delete,
    Adapter.fetch.

(** A program property that holds of every leaf is carried through the
    helpers of a method one case at a time. *)
Ltac through P :=
  repeat match goal with
         | |- P (run (mbind _ (Ret _))) => cbn [mbind res_bind]
         | |- P (run (mbind _ ?m)) =>
             let E := fresh in destruct m eqn:E; cbn [mbind res_bind run]
         | |- P (run (Ret _)) => cbn [run]
         | |- P (run (Throw _)) => exact I
         | |- P (run (if ?b then _ else _)) => destruct b
         | |- P (run (match ?x with _ => _ end)) => destruct x
         | |- P (call ?c _ _ _) => destruct c; cbn [call]
         | |- P (Raise _) => exact I
         | |- P (Callback _ _) => exact I
         | |- P (relay _ ?r) => destruct r; exact I
         | |- P (Adapter.fetch _ _ _ ?r) => destruct r; cbn [Adapter.fetch]
         | |- P (Mapper.getHits _ _ _) => rewrite getHits_map; exact I
         | |- P (Mapper.getFound _ _ _) => rewrite getFound_map; exact I
         | |- P (match ?r with _ => _ end) => destruct r
         end.

Lemma passesErrors_Call (c : client) (m : method) (p : params)
    (k : error + response m → prog) :
  (∀ err, k (inl err) = Callback (Some err) None) →
  (∀ r, passesErrors (k (inr r))) →
  passesErrors (Call c m p k).
Proof. by split. Qed.

Lemma atMost_Call (n : nat) (c : client) (m : method) (p : params)
    (k : error + response m → prog) :
  (∀ r, atMost n (k r)) → atMost (S n) (Call c m p k).
Proof. done. Qed.

Ltac walkErrors :=
  through passesErrors;
  lazymatch goal with
  | |- passesErrors (Call _ _ _ _) =>
      apply passesErrors_Call; [done|]; intros ?; cbv beta iota; walkErrors
  | |- _ => idtac
  end.

Ltac walkCount :=
  lazymatch goal with
  | |- atMost ?n _ => through (atMost n)
  | |- _ => idtac
  end;
  lazymatch goal with
  | |- atMost (S _) (Call _ _ _ _) =>
      apply atMost_Call; intros ?; cbv beta iota; walkCount
  | |- _ => idtac
  end.

(** X4.  A method called on a connection that is not registered, or whose
    registration holds no connection (its connect failed), raises a
    [TypeError] at once: it issues no request and never invokes its
    callback. *)
Theorem no_connection_raises (connections : registry) (connectionName : string) :
  connections !! connectionName = None ∨
  (∃ e, connections !! connectionName = Some e ∧ connection e = None) →
  let raised := Raise "TypeError: Cannot read property 'connection' of undefined" in
  (∀ collectionName settings index,
     Adapter.createIndex connections connectionName collectionName settings index = raised) ∧
  (∀ collectionName index,
     Adapter.putMapping connections connectionName collectionName index = raised) ∧
  (∀ collectionName options index,
     Adapter.find custom_async_limit connections connectionName collectionName
       options index = raised) ∧
  (∀ collectionName values h index,
     Adapter.create connections connectionName collectionName values h index = raised) ∧
  (∀ collectionName options values h index,
     Adapter.update connections connectionName collectionName options values h
       index = raised) ∧
  (∀ collectionName options index,
     Adapter.destroy connections connectionName collectionName options index = raised) ∧
  (∀ collectionName primaryKey index,
     Adapter.get connections connectionName collectionName primaryKey index = raised) ∧
  (∀ collectionName primaryKeys index,
     Adapter.mget custom_async_limit connections connectionName collectionName
       primaryKeys index = raised) ∧
  (∀ collectionName primaryKey index,
     Adapter.delete connections connectionName collectionName primaryKey index = raised).
Proof.
  intros Hno raised.
  assert (Adapter.getClient connections connectionName =
          Throw "TypeError: Cannot read property 'connection' of undefined") as Hcl.
  { unfold Adapter.getClient. destruct Hno as [->|(e & -> & ->)]; done. }
  repeat split; intros; methods; by rewrite Hcl.
Qed.

(** X5.  Every method hands an error of the client to its callback as it is and
    issues nothing after it: no retry and no further request. *)
Theorem client_errors_pass_through (connections : registry)
    (connectionName collectionName : string) (index : json) :
  (∀ settings, passesErrors
     (Adapter.createIndex connections connectionName collectionName settings index)) ∧
  passesErrors (Adapter.putMapping connections connectionName collectionName index) ∧
  (∀ options, passesErrors
     (Adapter.find custom_async_limit connections connectionName collectionName
        options index)) ∧
  (∀ values h, passesErrors
     (Adapter.create connections connectionName collectionName values h index)) ∧
  (∀ options values h, passesErrors
     (Adapter.update connections connectionName collectionName options values h index)) ∧
  (∀ options, passesErrors
     (Adapter.destroy connections connectionName collectionName options index)) ∧
  (∀ primaryKey, passesErrors
     (Adapter.get connections connectionName collectionName primaryKey index)) ∧
  (∀ primaryKeys, passesErrors
     (Adapter.mget custom_async_limit connections connectionName collectionName
        primaryKeys index)) ∧
  (∀ primaryKey, passesErrors
     (Adapter.delete connections connectionName collectionName primaryKey index)).
Proof.
  repeat apply conj; intros; methods; walkErrors.
Qed.

(** X6.  The number of requests per call: at most two for createIndex (exists,
    then create), create (index, then get) and update (update, then get),
    at most one for the others. *)
Theorem requests_per_call (connections : registry)
    (connectionName collectionName : string) (index : json) :
  (∀ settings, atMost 2
     (Adapter.createIndex connections connectionName collectionName settings index)) ∧
  atMost 1 (Adapter.putMapping connections connectionName collectionName index) ∧
  (∀ options, atMost 1
     (Adapter.find custom_async_limit connections connectionName collectionName
        options index)) ∧
  (∀ values h, atMost 2
     (Adapter.create connections connectionName collectionName values h index)) ∧
  (∀ options values h, atMost 2
     (Adapter.update connections connectionName collectionName options values h index)) ∧
  (∀ options, atMost 1
     (Adapter.destroy connections connectionName collectionName options index)) ∧
  (∀ primaryKey, atMost 1
     (Adapter.get connections connectionName collectionName primaryKey index)) ∧
  (∀ primaryKeys, atMost 1
     (Adapter.mget custom_async_limit connections connectionName collectionName
        primaryKeys index)) ∧
  (∀ primaryKey, atMost 1
     (Adapter.delete connections connectionName collectionName primaryKey index)).
Proof.
  repeat apply conj; intros; methods; walkCount.
Qed.

End EveryMethod.

Lemma no_connection_raises_witness :
  Adapter.get ∅ "es" "user" (JNum 1) JUndefined =
    Raise "TypeError: Cannot read property 'connection' of undefined" ∧
  Adapter.find None
    (Registry.registerConnection failingConnect sampleConfig None ∅).1
    "es" "user" noCriteria JUndefined =
    Raise "TypeError: Cannot read property 'connection' of undefined".
Proof.
  split.
  - refine (proj1 (proj2 (proj2 (proj2 (proj2 (proj2 (proj2
              (no_connection_raises None ∅ "es" (or_introl eq_refl)))))))) _ _ _).
  - refine (proj1 (proj2 (proj2
              (no_connection_raises None
                 (Registry.registerConnection failingConnect sampleConfig None ∅).1
                 "es" (or_intror _)))) _ _ _).
    eexists. split; reflexivity.
Defined.

(** ** The request body of [find]: paging and sorting *)

Section FindBodyMore.
Import Translator.

Lemma getProp_setProp_eq {A : Type} (k : string) (v : A) (ps : list (string * A)) :
  getProp k (setProp k v ps) = Some v.
Proof.
  induction ps as [|[k0 v0] ps IH]; simpl.
  - by rewrite decide_True.
  - destruct (decide (k = k0)) as [->|]; simpl.
    + by rewrite decide_True.
    + by rewrite decide_False.
Qed.

Lemma getProp_NoDup {A : Type} (ps : list (string * A)) (k : string) (v : A) :
  NoDup (keys ps) → (k, v) ∈ ps → getProp k ps = Some v.
Proof.
  unfold keys. induction ps as [|[k0 v0] ps IH]; intros Hnd Hin.
  - by apply elem_of_nil in Hin.
  - cbn [fmap list_fmap fst] in Hnd. apply NoDup_cons in Hnd as [Hk0 Hnd].
    cbn [getProp]. apply elem_of_cons in Hin as [[= -> ->]|Hin].
    + by rewrite decide_True.
    + rewrite decide_False; [by apply IH|].
      intros ->. apply Hk0. apply list_elem_of_fmap. by exists (k0, v).
Qed.

(** X7.  The result window: [from] is in the body exactly when [skip] is
    defined, and is that value; [size] likewise for [limit].  A [skip] or
    [limit] of 0 is defined and is sent. *)
Theorem find_window (options : criteria) :
  ∃ body,
    findBody options = Ret (JObj body) ∧
    getProp "from" body =
      (if isNullish (c_skip options) then None else Some (c_skip options)) ∧
    getProp "size" body =
      (if isNullish (c_limit options) then None else Some (c_limit options)).
Proof.
  unfold findBody.
  rewrite (mapM_Ret _ (λ field, filterOf field (getJ field (whereEntries options))))
    by (intros; apply whereFilter_filterOf).
  cbn [mbind res_bind]. eexists. split; [reflexivity|].
  destruct (isNullish (c_skip options)), (isNullish (c_limit options)),
    (c_sort options) as [sort|];
    repeat case_decide;
    rewrite ?(getProp_setProp_ne "from" "sort"), ?(getProp_setProp_ne "size" "sort"),
      ?(getProp_setProp_ne "from" "size"), ?getProp_setProp_eq by done;
    try done;
    rewrite ?(getProp_setProp_ne "size" "from") by done; done.
Qed.

(** X8.  The sort directives: when [sort] has entries, the body carries one
    directive per entry, in the order of the entries, ascending exactly for
    the code 1 and descending for every other code, and empty for an entry
    under the field [__proto__]; without entries there is no [sort] in the
    body. *)
Theorem find_sort (options : criteria) :
  (∀ sort, c_sort options = Some sort → NoDup (keys sort) → sort ≠ [] →
     ∃ body, findBody options = Ret (JObj body) ∧
             getProp "sort" body = Some (JArr (sortDirective <$> sort))) ∧
  (c_sort options = None ∨ c_sort options = Some [] →
     ∃ body, findBody options = Ret (JObj body) ∧ getProp "sort" body = None).
Proof.
  assert (∃ filter, mapM (λ field, whereFilter field (getJ field (whereEntries options)))
                      (keys (whereEntries options)) = Ret filter) as [filter Hfilter].
  { eexists. apply (mapM_Ret _ (λ field, filterOf field (getJ field (whereEntries options)))).
    intros. apply whereFilter_filterOf. }
  split.
  - intros sort Hsort Hnd Hne. unfold findBody. rewrite Hfilter, Hsort.
    cbn [mbind res_bind]. eexists. split; [reflexivity|].
    rewrite decide_False by (destruct sort; done).
    rewrite getProp_setProp_eq. do 2 f_equal. unfold keys.
    rewrite <- list_fmap_compose.
    apply Forall_fmap_ext_1, Forall_forall. intros [f d] Hin.
    unfold compose, sortQuery, sortDirective, assign. cbn [fst snd].
    rewrite (getProp_NoDup sort f d Hnd Hin). by case_decide.
  - intros Hsort. unfold findBody. rewrite Hfilter.
    cbn [mbind res_bind]. eexists. split; [reflexivity|].
    destruct Hsort as [-> | ->]; cbn [keys fmap list_fmap length];
      rewrite ?decide_True by done;
      destruct (isNullish (c_skip options)), (isNullish (c_limit options));
      rewrite ?(getProp_setProp_ne "sort" "size"), ?(getProp_setProp_ne "sort" "from")
        by done; done.
Qed.

End FindBodyMore.

Lemma find_sort_witness :
  ∃ body,
    Translator.findBody
      {| Translator.c_where := None; Translator.c_skip := JNum 0;
         Translator.c_limit := JUndefined;
         Translator.c_sort :=
           Some [("age", 1%Z); ("name", 0%Z); ("__proto__", 1%Z); ("id", (-1)%Z)] |} =
      Ret (JObj body) ∧
    getProp "sort" body =
      Some (JArr [JObj [("age", JObj [("order", JStr "asc")])];
                  JObj [("name", JObj [("order", JStr "desc")])];
                  JObj [];
                  JObj [("id", JObj [("order", JStr "desc")])]]).
Proof.
  apply (proj1 (find_sort
                  {| Translator.c_where := None; Translator.c_skip := JNum 0;
                     Translator.c_limit := JUndefined;
                     Translator.c_sort :=
                       Some [("age", 1%Z); ("name", 0%Z); ("__proto__", 1%Z);
                             ("id", (-1)%Z)] |})
           [("age", 1%Z); ("name", 0%Z); ("__proto__", 1%Z); ("id", (-1)%Z)]
           eq_refl).
  - apply (bool_decide_unpack _). vm_compute. exact I.
  - discriminate.
Defined.

(** ** What [find] and [get] hand to the callback *)

Section RecordsOfHits.
Import Registry Translator.
Variable custom_async_limit : option nat.

Lemma getProp_setProp_keys {A : Type} (k : string) (v : A) (ps : list (string * A)) :
  keys (setProp k v ps) = if bool_decide (k ∈ keys ps) then keys ps else keys ps ++ [k].
Proof.
  unfold keys. induction ps as [|[k0 v0] ps IH]; [done|].
  cbn [setProp fmap list_fmap fst]. destruct (decide (k = k0)) as [->|Hne].
  - cbn [fmap list_fmap fst]. rewrite bool_decide_eq_true_2; [done|]. apply list_elem_of_here.
  - cbn [fmap list_fmap fst]. rewrite IH.
    destruct (bool_decide (k ∈ ps.*1)) eqn:Hin.
    + apply bool_decide_eq_true in Hin.
      rewrite bool_decide_eq_true_2; [done|]. by apply list_elem_of_further.
    + apply bool_decide_eq_false in Hin.
      rewrite bool_decide_eq_false_2; [done|].
      by intros [?|Hin']%elem_of_cons.
Qed.

(** X9.  A record made of a hit is the stored document with the document
    identifier under [_id]: a stored [_id] field is overwritten where it
    stands, every other field keeps its value, and the fields keep their
    order, with [_id] last when the document did not store one. *)
Theorem hitToModel_identifier (h : hit) :
  ∃ model,
    Mapper.hitToModel h = JObj model ∧
    getProp "_id" model = Some (_id h) ∧
    (∀ k, k ≠ "_id" → getProp k model = getProp k (_source h)) ∧
    keys model = (if bool_decide ("_id" ∈ keys (_source h)) then keys (_source h)
                  else keys (_source h) ++ ["_id"]).
Proof.
  eexists. split; [reflexivity|]. split; [apply getProp_setProp_eq|].
  split; [intros k Hk; by apply getProp_setProp_ne|apply getProp_setProp_keys].
Qed.

(** X10.  On a registered connection and collection [find] issues one search,
    with the translated criteria as its body, on the resolved index and the
    collection's type; when the response reports a total other than zero
    the callback gets one record per hit, in the order of the hits. *)
Theorem find_returns_hits (connections : registry)
    (connectionName collectionName : string) (e : registration)
    (c : collection) (cl : client) (options : criteria) (index : json) :
  registeredWith connections connectionName collectionName e c cl →
  ∃ body k,
    findBody options = Ret body ∧
    Adapter.find custom_async_limit connections connectionName collectionName
      options index =
      Call cl M_search
        {| p_index := resolvedIndex index (cfg_index (config e)) collectionName;
           p_type := Some (adapter_identity c); p_id := None;
           p_body := Some (PQuery body) |} k ∧
    ∀ res : searchResponse,
      total res ≠ 0%Z →
      k (inr res) = Callback None (Some (JArr (Mapper.hitToModel <$> hits res))).
Proof.
  intros Hreg.
  destruct (helpers_registered _ _ _ _ _ _ index Hreg) as (Hcl & Hidx & Hty & _).
  destruct (findBody_query options) as (body & Hbody & _).
  unfold Adapter.find. rewrite Hcl, Hidx, Hty, Hbody. cbn [mbind res_bind run call].
  eexists _, _. split; [reflexivity|]. split; [reflexivity|].
  intros res Htotal. cbv beta iota. rewrite getHits_map. by rewrite decide_False.
Qed.

(** X11.  The earlier variant of [find] sends its own translation of the criteria
    and writes the identifier under [id]: on a total other than zero the
    callback gets one record per hit, in order, each with the document
    identifier under [id] and with the [_id] that the document stored, if
    any. *)
Theorem legacy_find_returns_hits (connections : registry)
    (connectionName collectionName : string) (e : registration)
    (c : collection) (cl : client) (options : criteria) (index : json) :
  registeredWith connections connectionName collectionName e c cl →
  ∃ k,
    LegacyAdapter.find connections connectionName collectionName options index =
      Call cl M_search
        {| p_index := resolvedIndex index (cfg_index (config e)) collectionName;
           p_type := Some (adapter_identity c); p_id := None;
           p_body := Some (PQuery (LegacyTranslator.findBody options)) |} k ∧
    ∀ res : searchResponse,
      total res ≠ 0%Z →
      ∃ results,
        k (inr res) = Callback None (Some (JArr (JObj <$> results))) ∧
        length results = length (hits res) ∧
        ∀ i h, hits res !! i = Some h →
          ∃ model, results !! i = Some model ∧
                   getProp "id" model = Some (_id h) ∧
                   getProp "_id" model = getProp "_id" (_source h).
Proof.
  intros Hreg.
  destruct (helpers_registered _ _ _ _ _ _ index Hreg) as (Hcl & Hidx & Hty & _).
  unfold LegacyAdapter.find. rewrite Hcl, Hidx, Hty. cbn [mbind res_bind run call].
  eexists. split; [reflexivity|].
  intros res Htotal. cbv beta iota.
  exists ((λ h, setProp "id" (_id h) (_source h)) <$> hits res).
  split; [|split].
  - unfold LegacyMapper.getHits. rewrite decide_False by done. unfold each.
    rewrite (eachLimit_push (λ h, JObj (setProp "id" (_id h) (_source h)))) by done.
    cbn [app]. by rewrite <- list_fmap_compose.
  - by rewrite length_fmap.
  - intros i h Hi. eexists. rewrite list_lookup_fmap, Hi. split; [reflexivity|].
    split; [apply getProp_setProp_eq|by apply getProp_setProp_ne].
Qed.

End RecordsOfHits.

Lemma find_returns_hits_witness :
  ∃ body k,
    Translator.findBody (whereCriteria [("name", JStr "b")]) = Ret body ∧
    Adapter.find None sampleConnections "es" "user"
      (whereCriteria [("name", JStr "b")]) JUndefined =
      Call (Client sampleConfig) M_search
        {| p_index := JStr "main"; p_type := Some (JStr "user"); p_id := None;
           p_body := Some (PQuery body) |} k ∧
    k (inr {| total := 2;
              hits := [ {| _id := JNum 2; _source := [("name", JStr "b")] |};
                        {| _id := JNum 5;
                           _source := [("_id", JNum 0); ("name", JStr "b")] |} ] |}) =
      Callback None
        (Some (JArr [JObj [("name", JStr "b"); ("_id", JNum 2)];
                     JObj [("_id", JNum 5); ("name", JStr "b")]])).
Proof.
  destruct (find_returns_hits None sampleConnections "es" "user"
              sampleRegistration sampleCollection (Client sampleConfig)
              (whereCriteria [("name", JStr "b")]) JUndefined sample_registered)
    as (body & k & Hbody & Hcall & Hk).
  exists body, k. split; [exact Hbody|]. split; [exact Hcall|].
  refine (Hk {| total := 2; hits := _ |} _). discriminate.
Defined.

Lemma legacy_find_returns_hits_witness :
  ∃ k,
    LegacyAdapter.find sampleConnections "es" "user"
      (whereCriteria [("name", JStr "b")]) JUndefined =
      Call (Client sampleConfig) M_search
        {| p_index := JStr "main"; p_type := Some (JStr "user"); p_id := None;
           p_body :=
             Some (PQuery (JObj [("query",
                     JObj [("bool",
                       JObj [("filter",
                         JArr [JObj [("term", JObj [("name", JStr "b")])]])])])])) |} k ∧
    ∃ results,
      k (inr {| total := 1;
                hits := [ {| _id := JNum 5;
                             _source := [("_id", JNum 0); ("name", JStr "b")] |} ] |}) =
        Callback None (Some (JArr (JObj <$> results))) ∧
      ∃ model, results !! 0%nat = Some model ∧
               getProp "id" model = Some (JNum 5) ∧
               getProp "_id" model = Some (JNum 0).
Proof.
  destruct (legacy_find_returns_hits sampleConnections "es" "user"
              sampleRegistration sampleCollection (Client sampleConfig)
              (whereCriteria [("name", JStr "b")]) JUndefined sample_registered)
    as (k & Hcall & Hk).
  exists k. split; [exact Hcall|].
  destruct (Hk {| total := 1;
                  hits := [ {| _id := JNum 5;
                               _source := [("_id", JNum 0); ("name", JStr "b")] |} ] |})
    as (results & Hres & _ & Hpos); [discriminate|].
  exists results. split; [exact Hres|].
  exact (Hpos 0%nat _ eq_refl).
Defined.

(** ** Reading and writing one document *)

Section OneDocument.
Import Registry Translator.

Lemma connectedWith_client (connections : registry) (connectionName : string)
    (e : registration) (cl : client) (collectionName : string) (index : json) :
  connectedWith connections connectionName e cl →
  Adapter.getClient connections connectionName = Ret (Some cl) ∧
  Adapter.getIndex connections connectionName collectionName index =
    Ret (resolvedIndex index (cfg_index (config e)) collectionName).
Proof.
  intros (He & conn & Hconn & Hcl). split.
  - unfold Adapter.getClient. by rewrite He, Hconn, Hcl.
  - by apply getIndex_registered.
Qed.

(** X12.  A collection that the connection does not know makes every method that
    works on documents raise an exception before any request, the callback
    not being invoked; [createIndex], which reads no collection, goes on to
    ask whether the index exists. *)
Theorem unknown_collection_raises (custom_async_limit : option nat)
    (connections : registry) (connectionName collectionName : string)
    (e : registration) (cl : client) :
  connectedWith connections connectionName e cl →
  collections e !! collectionName = None →
  (∀ index, raises (Adapter.putMapping connections connectionName collectionName index)) ∧
  (∀ options index,
     raises (Adapter.find custom_async_limit connections connectionName
               collectionName options index)) ∧
  (∀ values h index,
     raises (Adapter.create connections connectionName collectionName values h index)) ∧
  (∀ options values h index,
     raises (Adapter.update connections connectionName collectionName options
               values h index)) ∧
  (∀ options index,
     raises (Adapter.destroy connections connectionName collectionName options index)) ∧
  (∀ primaryKey index,
     raises (Adapter.get connections connectionName collectionName primaryKey index)) ∧
  (∀ primaryKeys index,
     raises (Adapter.mget custom_async_limit connections connectionName
               collectionName primaryKeys index)) ∧
  (∀ primaryKey index,
     raises (Adapter.delete connections connectionName collectionName primaryKey index)) ∧
  (∀ settings index, ∃ k,
     Adapter.createIndex connections connectionName collectionName settings index =
       Call cl M_indices_exists
         (onIndex (resolvedIndex index (cfg_index (config e)) collectionName) None) k).
Proof.
  intros Hconn Hnone.
  assert (Adapter.getType connections connectionName collectionName =
            Throw "TypeError: Cannot read property of undefined") as Hty.
  { unfold Adapter.getType, Adapter.getCollection.
    destruct Hconn as (-> & _). by rewrite Hnone. }
  repeat apply conj; intros;
    destruct (connectedWith_client _ _ _ _ collectionName index Hconn) as [Hcl Hidx];
    unfold Adapter.putMapping, Adapter.find, Adapter.create, Adapter.update,
      Adapter.destroy, Adapter.get, Adapter.mget, Adapter.delete, Adapter.createIndex;
    rewrite Hcl, Hidx, ?Hty; cbn [mbind res_bind run call]; by eexists.
Qed.

(** X13.  [get] asks the client for the document with the identifier it was
    given, whatever that is (no identifier is refused), and hands the
    callback the record made of the answer. *)
Theorem get_by_id (connections : registry)
    (connectionName collectionName : string) (e : registration)
    (c : collection) (cl : client) (primaryKey index : json) :
  registeredWith connections connectionName collectionName e c cl →
  ∃ k,
    Adapter.get connections connectionName collectionName primaryKey index =
      Call cl M_get
        (onType (resolvedIndex index (cfg_index (config e)) collectionName)
           (adapter_identity c) (Some primaryKey) None) k ∧
    ∀ h : hit, k (inr h) = Callback None (Some (Mapper.hitToModel h)).
Proof.
  intros Hreg.
  destruct (helpers_registered _ _ _ _ _ _ index Hreg) as (Hcl & Hidx & Hty & _).
  unfold Adapter.get. rewrite Hcl, Hidx, Hty. cbn [mbind res_bind run call].
  eexists. split; [reflexivity|done].
Qed.

(** X14.  [create] indexes the restricted values, which are the caller's object,
    with no identifier of its own; what follows the index response is a
    [get] of the identifier that the response reports, so the callback
    receives the record as the index returns it. *)
Theorem create_indexes_then_gets (connections : registry)
    (connectionName collectionName : string) (e : registration)
    (c : collection) (cl : client) (values : loc) (h : heap) (index : json)
    (restrictedValues : loc * heap) :
  registeredWith connections connectionName collectionName e c cl →
  Restrictor.restrictAttributes (_attributes c) values h = Ret restrictedValues →
  restrictedValues.1 = values ∧
  ∃ k,
    Adapter.create connections connectionName collectionName values h index =
      Call cl M_index
        (onType (resolvedIndex index (cfg_index (config e)) collectionName)
           (adapter_identity c) None
           (Some (PValues values restrictedValues.2))) k ∧
    ∀ res : written,
      k (inr res) =
      Adapter.get connections connectionName collectionName (written_id res) index.
Proof.
  intros Hreg Hrv.
  destruct (helpers_registered _ _ _ _ _ _ index Hreg)
    as (Hcl & Hidx & Hty & _ & Hattr).
  assert (restrictedValues.1 = values) as Hsame.
  { unfold Restrictor.restrictAttributes in Hrv.
    destruct (forEach _ _ _); [|done]. cbn in Hrv. by injection Hrv as <-. }
  split; [done|].
  unfold Adapter.create, Adapter.get. rewrite Hcl, Hidx, Hty, Hattr.
  cbn [mbind res_bind]. rewrite Hrv. cbn [mbind res_bind run call].
  rewrite Hsame. eexists. split; [reflexivity|done].
Qed.

(** X15.  [update] with a value under the model's primary-key field sends the
    restricted values as a partial document for that identifier; what
    follows the response is a [get] of the identifier that the response
    reports. *)
Theorem update_by_key_then_gets (connections : registry)
    (connectionName collectionName : string) (e : registration)
    (c : collection) (cl : client) (options : criteria)
    (w : list (string * json)) (values : loc) (h : heap) (index : json)
    (restrictedValues : loc * heap) :
  registeredWith connections connectionName collectionName e c cl →
  Restrictor.restrictAttributes (_attributes c) values h = Ret restrictedValues →
  c_where options = Some w →
  isNullish (getJ (primaryKey c) w) = false →
  ∃ k,
    Adapter.update connections connectionName collectionName options values h
      index =
      Call cl M_update
        (onType (resolvedIndex index (cfg_index (config e)) collectionName)
           (adapter_identity c) (Some (getJ (primaryKey c) w))
           (Some (PDoc values restrictedValues.2))) k ∧
    ∀ res : written,
      k (inr res) =
      Adapter.get connections connectionName collectionName (written_id res) index.
Proof.
  intros Hreg Hrv Hw Hkey.
  destruct (helpers_registered _ _ _ _ _ _ index Hreg)
    as (Hcl & Hidx & Hty & Hpk & Hattr).
  assert (restrictedValues.1 = values) as Hsame.
  { unfold Restrictor.restrictAttributes in Hrv.
    destruct (forEach _ _ _); [|done]. cbn in Hrv. by injection Hrv as <-. }
  unfold Adapter.update, Adapter.get, Adapter.whereOf.
  rewrite Hcl, Hidx, Hty, Hpk, Hattr. cbn [mbind res_bind]. rewrite Hrv, Hw.
  cbn [mbind res_bind]. rewrite Hkey. cbn [run call].
  rewrite Hsame. eexists. split; [reflexivity|done].
Qed.

(** X16.  [destroy] is [delete] of the value that the criteria hold under the
    key [primaryKey], whatever the model's primary-key field is called,
    on every registry and for all criteria that have a [where]. *)
Theorem destroy_is_delete_of_primaryKey (connections : registry)
    (connectionName collectionName : string) (options : criteria)
    (w : list (string * json)) (index : json) :
  c_where options = Some w →
  Adapter.destroy connections connectionName collectionName options index =
  Adapter.delete connections connectionName collectionName
    (getJ "primaryKey" w) index.
Proof.
  intros Hw. unfold Adapter.destroy, Adapter.delete, Adapter.whereOf. rewrite Hw.
  destruct (Adapter.getClient _ _) as [client|]; [|done].
  destruct (Adapter.getIndex _ _ _ _) as [indexName|]; [|done].
  destruct (Adapter.getType _ _ _) as [typeName|]; done.
Qed.

(** X17.  [delete] refuses an identifier that is [undefined] or [null] with the
    error about the primary key, before any request; any other
    identifier, 0 and the empty string too, goes into one delete request,
    after which the callback is invoked without a result. *)
Theorem delete_by_id (connections : registry)
    (connectionName collectionName : string) (e : registration)
    (c : collection) (cl : client) (primaryKey index : json) :
  registeredWith connections connectionName collectionName e c cl →
  (isNullish primaryKey = true →
   Adapter.delete connections connectionName collectionName primaryKey index =
     Callback (Some missingKey) None) ∧
  (isNullish primaryKey = false →
   ∃ k,
     Adapter.delete connections connectionName collectionName primaryKey index =
       Call cl M_delete
         (onType (resolvedIndex index (cfg_index (config e)) collectionName)
            (adapter_identity c) (Some primaryKey) None) k ∧
     ∀ r, k (inr r) = Callback None None).
Proof.
  intros Hreg.
  destruct (helpers_registered _ _ _ _ _ _ index Hreg) as (Hcl & Hidx & Hty & _).
  unfold Adapter.delete. rewrite Hcl, Hidx, Hty. cbn [mbind res_bind].
  split; intros ->; [done|]. cbn [run call]. eexists. split; [reflexivity|done].
Qed.

End OneDocument.

Lemma sample_connected :
  connectedWith sampleConnections "es" sampleRegistration (Client sampleConfig).
Proof. split; [done|by eexists]. Qed.

Lemma unknown_collection_raises_witness :
  raises (Adapter.get sampleConnections "es" "order" (JNum 1) JUndefined) ∧
  raises (Adapter.find None sampleConnections "es" "order" noCriteria JUndefined) ∧
  ∃ k, Adapter.createIndex sampleConnections "es" "order" JUndefined JUndefined =
         Call (Client sampleConfig) M_indices_exists (onIndex (JStr "main") None) k.
Proof.
  pose proof (unknown_collection_raises None sampleConnections "es" "order"
                sampleRegistration (Client sampleConfig) sample_connected eq_refl)
    as (_ & Hfind & _ & _ & _ & Hget & _ & _ & Hcreate).
  split; [exact (Hget (JNum 1) JUndefined)|].
  split; [exact (Hfind noCriteria JUndefined)|].
  exact (Hcreate JUndefined JUndefined).
Defined.

Lemma get_by_id_witness :
  ∃ k,
    Adapter.get sampleConnections "es" "user" JUndefined (JStr "archive") =
      Call (Client sampleConfig) M_get
        (onType (JStr "archive") (JStr "user") (Some JUndefined) None) k ∧
    k (inr {| _id := JNum 2; _source := [("name", JStr "b")] |}) =
      Callback None (Some (JObj [("name", JStr "b"); ("_id", JNum 2)])).
Proof.
  destruct (get_by_id sampleConnections "es" "user" sampleRegistration
              sampleCollection (Client sampleConfig) JUndefined (JStr "archive")
              sample_registered) as (k & Hcall & Hk).
  exists k. split; [exact Hcall|].
  exact (Hk {| _id := JNum 2; _source := [("name", JStr "b")] |}).
Defined.

Lemma create_indexes_then_gets_witness :
  ∃ k,
    Adapter.create sampleConnections "es" "user" 1%positive sampleHeap JUndefined =
      Call (Client sampleConfig) M_index
        (onType (JStr "main") (JStr "user") None
           (Some (PValues 1%positive
                    (<[2%positive := Obj [("x", HNum 1)]]> sampleHeap)))) k ∧
    k (inr {| written_id := JStr "abc"; written_raw := JNull |}) =
      Adapter.get sampleConnections "es" "user" (JStr "abc") JUndefined.
Proof.
  destruct (create_indexes_then_gets sampleConnections "es" "user"
              sampleRegistration sampleCollection (Client sampleConfig)
              1%positive sampleHeap JUndefined
              (1%positive, <[2%positive := Obj [("x", HNum 1)]]> sampleHeap)
              sample_registered) as (_ & k & Hcall & Hk).
  { vm_compute. reflexivity. }
  exists k. split; [exact Hcall|].
  exact (Hk {| written_id := JStr "abc"; written_raw := JNull |}).
Defined.

Lemma update_by_key_then_gets_witness :
  ∃ k,
    Adapter.update sampleConnections "es" "user"
      (whereCriteria [("id", JNum 0)]) 1%positive sampleHeap JUndefined =
      Call (Client sampleConfig) M_update
        (onType (JStr "main") (JStr "user") (Some (JNum 0))
           (Some (PDoc 1%positive
                    (<[2%positive := Obj [("x", HNum 1)]]> sampleHeap)))) k ∧
    k (inr {| written_id := JNum 0; written_raw := JNull |}) =
      Adapter.get sampleConnections "es" "user" (JNum 0) JUndefined.
Proof.
  destruct (update_by_key_then_gets sampleConnections "es" "user"
              sampleRegistration sampleCollection (Client sampleConfig)
              (whereCriteria [("id", JNum 0)]) [("id", JNum 0)]
              1%positive sampleHeap JUndefined
              (1%positive, <[2%positive := Obj [("x", HNum 1)]]> sampleHeap)
              sample_registered) as (k & Hcall & Hk).
  { vm_compute. reflexivity. }
  { reflexivity. }
  { reflexivity. }
  exists k. split; [exact Hcall|].
  exact (Hk {| written_id := JNum 0; written_raw := JNull |}).
Defined.

Lemma destroy_is_delete_of_primaryKey_witness :
  Adapter.destroy sampleConnections "es" "user"
    (whereCriteria [("id", JNum 7); ("primaryKey", JNum 9)]) JUndefined =
  Adapter.delete sampleConnections "es" "user" (JNum 9) JUndefined.
Proof.
  exact (destroy_is_delete_of_primaryKey sampleConnections "es" "user"
           (whereCriteria [("id", JNum 7); ("primaryKey", JNum 9)])
           [("id", JNum 7); ("primaryKey", JNum 9)] JUndefined eq_refl).
Defined.

Lemma delete_by_id_witness :
  Adapter.delete sampleConnections "es" "user" JNull JUndefined =
    Callback (Some missingKey) None ∧
  ∃ k,
    Adapter.delete sampleConnections "es" "user" (JNum 0) JUndefined =
      Call (Client sampleConfig) M_delete
        (onType (JStr "main") (JStr "user") (Some (JNum 0)) None) k ∧
    k (inr tt) = Callback None None.
Proof.
  pose proof (delete_by_id sampleConnections "es" "user" sampleRegistration
                sampleCollection (Client sampleConfig) JNull JUndefined
                sample_registered) as [Hnull _].
  pose proof (delete_by_id sampleConnections "es" "user" sampleRegistration
                sampleCollection (Client sampleConfig) (JNum 0) JUndefined
                sample_registered) as [_ Hzero].
  split; [exact (Hnull eq_refl)|].
  destruct (Hzero eq_refl) as (k & Hcall & Hk).
  exists k. split; [exact Hcall|exact (Hk tt)].
Defined.

(** ** Creating an index and putting the mappings *)

Section IndexAndMapping.
Import Registry.

(** X18.  [createIndex] first asks whether the index exists; when it does the
    callback gets the error [Index already exists.] and nothing is
    created; when it does not, one create request follows, which carries
    the settings exactly when they are defined, and its answer goes to the
    callback.  The collection need not be known to the connection. *)
Theorem createIndex_only_when_absent (connections : registry)
    (connectionName collectionName : string) (e : registration) (cl : client)
    (settings index : json) :
  connectedWith connections connectionName e cl →
  let indexName := resolvedIndex index (cfg_index (config e)) collectionName in
  ∃ k,
    Adapter.createIndex connections connectionName collectionName settings index =
      Call cl M_indices_exists (onIndex indexName None) k ∧
    k (inr true) = Callback (Some (Error "Index already exists.")) None ∧
    ∃ k',
      k (inr false) =
        Call cl M_indices_create
          (onIndex indexName
             (if isNullish settings then None else Some (PSettings settings))) k' ∧
      ∀ res : json, k' (inr res) = Callback None (Some res).
Proof.
  intros Hconn indexName.
  destruct (connectedWith_client _ _ _ _ collectionName index Hconn) as [Hcl Hidx].
  unfold Adapter.createIndex. rewrite Hcl, Hidx. cbn [mbind res_bind run call].
  eexists. split; [reflexivity|]. split; [reflexivity|].
  cbv beta iota. eexists. split; [reflexivity|done].
Qed.




End IndexAndMapping.

Lemma createIndex_only_when_absent_witness :
  ∃ k,
    Adapter.createIndex sampleConnections "es" "order"
      (JObj [("number_of_shards", JNum 1)]) JUndefined =
      Call (Client sampleConfig) M_indices_exists (onIndex (JStr "main") None) k ∧
    k (inr true) = Callback (Some (Error "Index already exists.")) None ∧
    ∃ k',
      k (inr false) =
        Call (Client sampleConfig) M_indices_create
          (onIndex (JStr "main")
             (Some (PSettings (JObj [("number_of_shards", JNum 1)])))) k' ∧
      k' (inr (JBool true)) = Callback None (Some (JBool true)).
Proof.
  destruct (createIndex_only_when_absent sampleConnections "es" "order"
              sampleRegistration (Client sampleConfig)
              (JObj [("number_of_shards", JNum 1)]) JUndefined sample_connected)
    as (k & Hcall & Hexists & k' & Hcreate & Hk').
  exists k. split; [exact Hcall|]. split; [exact Hexists|].
  exists k'. split; [exact Hcreate|exact (Hk' (JBool true))].
Defined.


(** ** More on the attribute restrictor *)

Section RestrictorMore.

Lemma forEach_fixed {A : Type} (step : A → heap → res heap) (ks : list A) (h : heap) :
  (∀ k, k ∈ ks → step k h = Ret h) → forEach step ks h = Ret h.
Proof.
  induction ks as [|k ks IH]; intros Hfixed; [done|].
  cbn [forEach]. rewrite Hfixed by left. cbn [mbind res_bind].
  apply IH. intros k' Hk'. apply Hfixed. by right.
Qed.

(** X20.  Restricting restricted values changes nothing: with the one [json]
    attribute holding an object, a second pass of [restrictAttributes] over
    the heap that the first pass left returns that heap. *)
Theorem restrict_twice_is_once (attributes : list (string * attribute))
    (name : string) (a : attribute) (v l : loc)
    (vps ps : list (string * hval)) (h : heap) :
  NoDup (keys attributes) →
  getProp name attributes = Some a →
  a_type a = Some "json" →
  (∀ n a', n ≠ name → getProp n attributes = Some a' → a_type a' ≠ Some "json") →
  h !! v = Some (Obj vps) →
  getProp name vps = Some (HRef l) →
  l ≠ v →
  h !! l = Some (Obj ps) →
  ∃ h1,
    Restrictor.restrictAttributes attributes v h = Ret (v, h1) ∧
    Restrictor.restrictAttributes attributes v h1 = Ret (v, h1).
Proof.
  intros Hnodup Ha Hjson Hothers Hv Hname Hapart Hl.
  exists (<[l := Obj (keepProps (keptKey a) ps)]> h). split.
  - by apply (restrictAttributes_object attributes name a v l vps ps h).
  - rewrite (restrictAttributes_object attributes name a v l vps
               (keepProps (keptKey a) ps)); try done.
    + by rewrite insert_insert_eq, keepProps_idem.
    + by rewrite lookup_insert_ne.
    + by rewrite lookup_insert_eq.
Qed.

(** X21.  Values that have nothing to restrict go through as they are: when
    every [json] attribute either has neither list or has no value in
    [values] (a partial update), the current [restrictAttributes] returns
    the reference and the heap it was given, without an exception. *)
Theorem restrict_nothing_to_do (attributes : list (string * attribute))
    (values : loc) (h : heap) :
  (∀ n a, getProp n attributes = Some a → a_type a = Some "json" →
          (a_restrictAttributes a = None ∧ a_skipAttributes a = None) ∨
          truthy (read h values n) = false) →
  Restrictor.restrictAttributes attributes values h = Ret (values, h).
Proof.
  intros Hidle. unfold Restrictor.restrictAttributes.
  rewrite forEach_fixed; [done|].
  intros n [a Hn]%getProp_is_Some. unfold Restrictor.restrictAttribute.
  rewrite Hn. case_decide as Hjson; [|done].
  destruct (Hidle n a Hn Hjson) as [[-> ->]|Hfalse]; [done|].
  destruct (a_restrictAttributes a), (a_skipAttributes a);
    rewrite ?Hfalse; cbn [mbind res_bind]; rewrite ?Hfalse; done.
Qed.

Lemma getProp_app_l {A : Type} (k : string) (ps qs : list (string * A)) :
  k ∈ keys ps → getProp k (ps ++ qs) = getProp k ps.
Proof.
  unfold keys. induction ps as [|[k0 v0] ps IH]; intros Hk.
  - by apply elem_of_nil in Hk.
  - cbn [fmap list_fmap fst] in Hk. cbn [app getProp].
    case_decide; [done|]. apply IH.
    by apply elem_of_cons in Hk as [?|?].
Qed.

Lemma getProp_app_r {A : Type} (k : string) (ps qs : list (string * A)) :
  k ∉ keys ps → getProp k (ps ++ qs) = getProp k qs.
Proof.
  unfold keys. induction ps as [|[k0 v0] ps IH]; intros Hk; [done|].
  cbn [fmap list_fmap fst] in Hk. apply not_elem_of_cons in Hk as [Hne Hk].
  cbn [app getProp]. rewrite decide_False by done. by apply IH.
Qed.

Lemma getProp_elem {A : Type} (k : string) (v : A) (ps : list (string * A)) :
  getProp k ps = Some v → (k, v) ∈ ps.
Proof.
  induction ps as [|[k0 v0] ps IH]; [done|]. cbn [getProp].
  case_decide as Hk.
  - intros [= ->]. subst. by left.
  - intros Hget. right. by apply IH.
Qed.

(** X22.  The earlier variant has no test for a missing value: the first [json]
    attribute with a restrict or skip list makes [restrictAttributes] raise a
    [TypeError] when [values] is an object that has no property of that
    name, or has [undefined] or [null] there, where the current variant
    leaves the values alone.  The name is not one that every object
    inherits ([constructor], [toString], ...): under such a name
    [values[attribute]] finds the inherited member, which has no keys, and
    nothing is raised. *)
Theorem legacy_restrict_raises_on_missing_value
    (before after : list (string * attribute)) (name : string) (a : attribute)
    (values : loc) (vps : list (string * hval)) (h : heap) :
  Forall (λ na, a_type na.2 ≠ Some "json" ∨
                (a_restrictAttributes na.2 = None ∧ a_skipAttributes na.2 = None))
    before →
  name ∉ keys before →
  a_type a = Some "json" →
  a_restrictAttributes a ≠ None ∨ a_skipAttributes a ≠ None →
  h !! values = Some (Obj vps) →
  name ∉ Registry.objectPrototype →
  getProp name vps = None ∨ getProp name vps = Some HUndefined ∨
    getProp name vps = Some HNull →
  LegacyRestrictor.restrictAttributes (before ++ (name, a) :: after) values h =
    Throw "TypeError: Cannot convert undefined or null to object" ∧
  Restrictor.restrictAttribute (before ++ (name, a) :: after) values name h = Ret h.
Proof.
  intros Hbefore Hname Hjson Hlists Hvalues _ Hown.
  assert (read h values name = HUndefined ∨ read h values name = HNull)
    as Hmissing.
  { unfold read. rewrite Hvalues.
    destruct Hown as [-> | [-> | ->]]; [by left|by left|by right]. }
  assert (getProp name (before ++ (name, a) :: after) = Some a) as Ha.
  { rewrite getProp_app_r by done. cbn [getProp]. by rewrite decide_True. }
  split.
  - unfold LegacyRestrictor.restrictAttributes, keys. rewrite fmap_app.
    assert (∀ ks, (∀ k, k ∈ ks → k ∈ keys before) →
              forEach (LegacyRestrictor.restrictAttribute
                         (before ++ (name, a) :: after) values)
                (ks ++ ((name, a) :: after).*1) h =
              Throw "TypeError: Cannot convert undefined or null to object")
      as Hloop.
    { induction ks as [|k ks IH]; intros Hks.
      - cbn [app fmap list_fmap fst forEach].
        assert (LegacyRestrictor.restrictAttribute
                  (before ++ (name, a) :: after) values name h =
                Throw "TypeError: Cannot convert undefined or null to object")
          as ->; [|done].
        unfold LegacyRestrictor.restrictAttribute.
        rewrite Ha, decide_True by done.
        unfold LegacyRestrictor.restrictLoop, Restrictor.skipLoop.
        destruct (a_restrictAttributes a) as [fields|],
                 (a_skipAttributes a) as [skips|];
          destruct Hlists as [?|?]; try done; cbn [mbind res_bind];
          destruct Hmissing as [Hm|Hm]; rewrite Hm; done.
      - cbn [app forEach].
        assert (LegacyRestrictor.restrictAttribute
                  (before ++ (name, a) :: after) values k h = Ret h) as ->.
        { unfold LegacyRestrictor.restrictAttribute.
          pose proof (Hks k ltac:(left)) as Hk.
          rewrite getProp_app_l by done.
          apply getProp_is_Some in Hk as [a' Hk]. rewrite Hk.
          apply getProp_elem in Hk.
          destruct (proj1 (Forall_forall _ _) Hbefore (k, a') Hk)
            as [Hplain|[Hr Hs]]; cbn [snd] in *.
          - by rewrite decide_False.
          - rewrite Hr, Hs. by case_decide. }
        cbn [mbind res_bind]. apply IH. intros k' Hk'. apply Hks. by right. }
    by rewrite Hloop.
  - unfold Restrictor.restrictAttribute. rewrite Ha, decide_True by done.
    destruct (a_restrictAttributes a), (a_skipAttributes a);
      destruct Hmissing as [Hm|Hm];
      rewrite ?Hm; cbn [mbind res_bind truthy]; rewrite ?Hm; done.
Qed.

End RestrictorMore.

Lemma restrict_twice_is_once_witness :
  ∃ h1,
    Restrictor.restrictAttributes
      [("name", {| a_type := Some "string"; a_restrictAttributes := None;
                   a_skipAttributes := None; a_mapping := JUndefined |});
       ("meta", jsonAttribute (Some ["x"; "z"]) (Some ["z"]))]
      1%positive heapXYZ = Ret (1%positive, h1) ∧
    Restrictor.restrictAttributes
      [("name", {| a_type := Some "string"; a_restrictAttributes := None;
                   a_skipAttributes := None; a_mapping := JUndefined |});
       ("meta", jsonAttribute (Some ["x"; "z"]) (Some ["z"]))]
      1%positive h1 = Ret (1%positive, h1).
Proof.
  apply (restrict_twice_is_once _ "meta" (jsonAttribute (Some ["x"; "z"]) (Some ["z"]))
           1%positive 2%positive [("meta", HRef 2%positive)]
           [("x", HNum 1); ("y", HNum 2); ("z", HNum 3)] heapXYZ);
    try reflexivity.
  - apply (bool_decide_unpack _). vm_compute. exact I.
  - intros n a' Hne Hn. cbn in Hn. repeat case_decide; try done.
    by injection Hn as <-.
  - discriminate.
Defined.

Lemma restrict_nothing_to_do_witness :
  Restrictor.restrictAttributes sampleAttributes 1%positive
    {[1%positive := Obj [("name", HStr "n")]]} =
  Ret (1%positive, {[1%positive := Obj [("name", HStr "n")]]}).
Proof.
  apply (restrict_nothing_to_do sampleAttributes 1%positive
           {[1%positive := Obj [("name", HStr "n")]]}).
  intros n a Hn Hjson. right. cbn in Hn.
  repeat case_decide; try done; injection Hn as <-; try done.
  subst n. reflexivity.
Defined.

Lemma legacy_restrict_raises_on_missing_value_witness :
  LegacyRestrictor.restrictAttributes
    (("tags", jsonAttribute None None) :: sampleAttributes) 1%positive
    {[1%positive := Obj [("name", HStr "n")]]} =
    Throw "TypeError: Cannot convert undefined or null to object" ∧
  Restrictor.restrictAttribute
    (("tags", jsonAttribute None None) :: sampleAttributes) 1%positive "meta"
    {[1%positive := Obj [("name", HStr "n")]]} =
    Ret {[1%positive := Obj [("name", HStr "n")]]}.
Proof.
  apply (legacy_restrict_raises_on_missing_value
           [("tags", jsonAttribute None None);
            ("name", {| a_type := Some "string"; a_restrictAttributes := None;
                        a_skipAttributes := None; a_mapping := JUndefined |})]
           [] "meta"
           {| a_type := Some "json"; a_restrictAttributes := Some ["x"];
              a_skipAttributes := None; a_mapping := JUndefined |}
           1%positive [("name", HStr "n")]
           {[1%positive := Obj [("name", HStr "n")]]}).
  - apply Forall_cons. split; [by right|].
    apply Forall_singleton. by left.
  - apply (bool_decide_unpack _). vm_compute. exact I.
  - reflexivity.
  - left. discriminate.
  - reflexivity.
  - apply (bool_decide_unpack _). vm_compute. exact I.
  - left. reflexivity.
Defined.

Lemma restrictCells_all (ls : list loc) :
  ∀ h : heap, restrictCells (λ _, true) ls h = h.
Proof.
  unfold restrictCells. induction ls as [|l rest IH]; intros h; [done|].
  cbn [foldl]. destruct (h !! l) as [[ps|es]|] eqn:Hl; [|done..].
  rewrite keepProps_all, insert_id by done. apply IH.
Qed.

Section ListValueMore.
(** [values], at [v], holds under the key [name] a reference to the list at
    [la], whose elements are references to the objects at [ls], none of
    which is [values] itself. *)
Variables (v la : loc) (name : string) (vps : list (string * hval)) (h : heap).
Variables (ls : list loc).
Hypothesis Hvalues : h !! v = Some (Obj vps).
Hypothesis Hattribute : getProp name vps = Some (HRef la).
Hypothesis Hlist : h !! la = Some (Arr ((λ l, Some (HRef l)) <$> ls)).
Hypothesis Hobjects : Forall (λ l, l ≠ la ∧ ∃ ps, h !! l = Some (Obj ps)) ls.
Hypothesis Hapart : v ∉ ls.

Lemma list_not_element : la ∉ ls.
Proof.
  intros Hin. by destruct (proj1 (Forall_forall _ _) Hobjects la Hin) as [? _].
Qed.

Lemma arrayIndex_None (s : string) (n i : nat) :
  arrayIndex s n = None → (i < n)%nat → pretty i ≠ s.
Proof.
  unfold arrayIndex. intros Hnone Hi Heq.
  destruct (list_find (λ i, pretty i = s) (seq 0 n)) as [[j x]|] eqn:Hfind; [done|].
  apply list_find_None in Hfind.
  apply (proj1 (Forall_forall _ _) Hfind i); [|done].
  apply elem_of_seq. lia.
Qed.

Lemma objectKeys_list (h' : heap) (es : list (option hval)) (k : string) :
  h' !! la = Some (Arr es) →
  ∀ ks, objectKeys h' (HRef la) = Ret ks → k ∈ ks →
        ∃ i, (i < length es)%nat ∧ k = pretty i.
Proof.
  intros Hla ks. cbn [objectKeys]. rewrite Hla. intros [= <-] Hk.
  apply list_elem_of_omap in Hk as ([i e] & Hin & Hsome).
  apply elem_of_lookup_imap in Hin as (j & e' & [= -> ->] & Hj).
  cbn [fst snd] in Hsome. destruct e'; [|done]. injection Hsome as <-.
  exists j. split; [|done]. by apply lookup_lt_Some in Hj.
Qed.

(** The skip loop on a list value walks the indexes of the list, so a skip
    list that names no index deletes nothing, in the list or in its
    elements. *)
Lemma skipLoop_list (skips : list string) (h' : heap) :
  h' !! v = Some (Obj vps) →
  h' !! la = Some (Arr ((λ l, Some (HRef l)) <$> ls)) →
  (∀ s, s ∈ skips → arrayIndex s (length ls) = None) →
  Restrictor.skipLoop skips v name h' = Ret h'.
Proof.
  intros Hv Hla Hskips. unfold Restrictor.skipLoop.
  assert (read h' v name = HRef la) as ->
    by (unfold read; by rewrite Hv, Hattribute).
  destruct (objectKeys h' (HRef la)) as [ks|msg] eqn:Hks;
    [|cbn [objectKeys] in Hks; by rewrite Hla in Hks].
  cbn [mbind res_bind]. apply forEach_idle. intros e h1 He.
  destruct (objectKeys_list h' _ e Hla ks Hks He) as (i & Hi & ->).
  rewrite length_fmap in Hi.
  apply forEach_idle. intros s h2 Hs.
  rewrite decide_False; [done|].
  by apply (arrayIndex_None s (length ls) i (Hskips s Hs)).
Qed.

(** X23.  On a list of objects the restrict list is applied to every element,
    where it lies, and the skip list to none: a skipped sub-key that the
    restrict list lets through stays in the elements.  The list keeps its
    elements, and nothing else on the heap changes. *)
Theorem restrict_list_value (attributes : list (string * attribute))
    (a : attribute) :
  NoDup (keys attributes) →
  getProp name attributes = Some a →
  a_type a = Some "json" →
  (∀ n a', n ≠ name → getProp n attributes = Some a' → a_type a' ≠ Some "json") →
  (∀ skips s, a_skipAttributes a = Some skips → s ∈ skips →
              arrayIndex s (length ls) = None) →
  ∃ h1,
    Restrictor.restrictAttributes attributes v h = Ret (v, h1) ∧
    h1 !! la = h !! la ∧
    (∀ l ps, l ∈ ls → h !! l = Some (Obj ps) →
             h1 !! l = Some (Obj (keepProps (listedKey a) ps))) ∧
    (∀ l, l ∉ ls → h1 !! l = h !! l).
Proof.
  intros Hnodup Ha Hjson Hothers Hskips.
  exists (restrictCells (listedKey a) ls h).
  split; [|split; [|split]].
  - unfold Restrictor.restrictAttributes.
    rewrite (forEach_single _ name _ h (restrictCells (listedKey a) ls h));
      [done|done| | |].
    + apply getProp_is_Some. by eexists.
    + intros n h' [a' Hn]%getProp_is_Some Hne.
      unfold Restrictor.restrictAttribute. rewrite Hn.
      by rewrite decide_False by (by eapply Hothers).
    + unfold Restrictor.restrictAttribute. rewrite Ha, decide_True by done.
      assert (read h v name = HRef la) as Hread
        by (unfold read; by rewrite Hvalues, Hattribute).
      assert (∀ keep, read (restrictCells keep ls h) v name = HRef la) as Hread1.
      { intros keep. unfold read.
        rewrite restrictCells_elsewhere by done. by rewrite Hvalues, Hattribute. }
      assert (∀ h', h' = restrictCells (listedKey a) ls h →
                match a_skipAttributes a with
                | Some skipAttributes =>
                    if truthy (read h' v name)
                    then Restrictor.skipLoop skipAttributes v name h'
                    else Ret h'
                | None => Ret h'
                end = Ret h') as Hskip.
      { intros h' ->. destruct (a_skipAttributes a) as [skips|] eqn:Hsk; [|done].
        rewrite Hread1. cbn [truthy]. apply skipLoop_list.
        - by rewrite restrictCells_elsewhere.
        - rewrite restrictCells_elsewhere by apply list_not_element. done.
        - intros s Hs. by eapply Hskips. }
      unfold listedKey in *.
      destruct (a_restrictAttributes a) as [fields|] eqn:Hfields.
      * rewrite Hread. cbn [truthy isArrayRef]. rewrite Hlist, length_fmap.
        rewrite (arrayForEach_objects la ls fields ls 0 h) by done.
        cbn [mbind res_bind]. by apply Hskip.
      * cbn [mbind res_bind].
        pose proof (restrictCells_all ls h) as Hsame.
        rewrite Hsame in Hskip |- *. by apply Hskip.
  - apply restrictCells_elsewhere, list_not_element.
  - intros l ps Hl Hps. by apply restrictCells_object.
  - intros l Hl. by apply restrictCells_elsewhere.
Qed.

End ListValueMore.

Lemma restrict_list_value_witness :
  ∃ h1,
    Restrictor.restrictAttributes (namedAttributes (Some ["y"]) (Some ["y"]))
      1%positive heapList = Ret (1%positive, h1) ∧
    h1 !! 2%positive =
      Some (Arr [Some (HRef 3%positive); Some (HRef 4%positive)]) ∧
    h1 !! 3%positive = Some (Obj [("y", HNum 2)]) ∧
    h1 !! 4%positive = Some (Obj [("y", HNum 3)]).
Proof.
  destruct (restrict_list_value 1%positive 2%positive "meta"
              [("meta", HRef 2%positive)] heapList [3%positive; 4%positive]
              eq_refl eq_refl eq_refl) with
    (attributes := namedAttributes (Some ["y"]) (Some ["y"]))
    (a := jsonAttribute (Some ["y"]) (Some ["y"]))
    as (h1 & Hrun & Hlist & Hin & _).
  - repeat constructor; try discriminate; by eexists.
  - apply (bool_decide_unpack _). vm_compute. exact I.
  - apply (bool_decide_unpack _). vm_compute. exact I.
  - reflexivity.
  - reflexivity.
  - intros n a' Hne Hn. cbn in Hn. repeat case_decide; try done.
    by injection Hn as <-.
  - intros skips s [= <-] Hs. apply list_elem_of_singleton in Hs as ->.
    reflexivity.
  - exists h1. split; [exact Hrun|]. split; [exact Hlist|]. split.
    + apply (Hin 3%positive [("x", HNum 1); ("y", HNum 2)]); [|reflexivity].
      apply (bool_decide_unpack _). vm_compute. exact I.
    + apply (Hin 4%positive [("y", HNum 3)]); [|reflexivity].
      apply (bool_decide_unpack _). vm_compute. exact I.
Defined.

Section LegacyObjectValue.
(** [values], at [v], holds under the key [name] a reference to the object at
    [l], which is not [values] itself. *)
Variables (v l : loc) (name : string) (vps : list (string * hval)) (h : heap).
Hypothesis Hvalues : h !! v = Some (Obj vps).
Hypothesis Hattribute : getProp name vps = Some (HRef l).
Hypothesis Hapart : l ≠ v.

Lemma legacy_restrictAttribute_object (attributes : list (string * attribute))
    (a : attribute) (ps : list (string * hval)) :
  getProp name attributes = Some a →
  a_type a = Some "json" →
  h !! l = Some (Obj ps) →
  LegacyRestrictor.restrictAttribute attributes v name h =
  Ret (<[l := Obj (keepProps (legacyKeptKey a) ps)]> h).
Proof.
  intros Ha Hjson Hl. unfold LegacyRestrictor.restrictAttribute.
  rewrite Ha, decide_True by done. unfold legacyKeptKey.
  destruct (a_restrictAttributes a) as [fields|],
           (a_skipAttributes a) as [skips|].
  - rewrite (legacy_restrictLoop_object v l name vps h Hvalues Hattribute Hapart
               fields ps Hl).
    cbn [mbind res_bind].
    rewrite (skipLoop_object v l name vps _
               ltac:(by rewrite lookup_insert_ne) Hattribute Hapart skips _
               ltac:(by rewrite lookup_insert_eq)).
    by rewrite insert_insert_eq, keepProps_keepProps.
  - rewrite (legacy_restrictLoop_object v l name vps h Hvalues Hattribute Hapart
               fields ps Hl).
    cbn [mbind res_bind]. do 3 f_equal. unfold keepProps.
    apply list_filter_iff. intros kv. by rewrite andb_true_r.
  - cbn [mbind res_bind].
    by rewrite (skipLoop_object v l name vps h Hvalues Hattribute Hapart skips ps Hl).
  - cbn [mbind res_bind]. by rewrite keepProps_all, insert_id.
Qed.

(** X24.  The earlier variant on an object value keeps a sub-key only when it
    equals every field of the restrict list, so it does what the current
    variant does when the restrict list is missing or has fields that are
    all the same; with an empty restrict list and no skip list it keeps
    every sub-key where the current variant deletes them all. *)
Theorem legacy_restrict_agrees_on_one_field
    (attributes : list (string * attribute)) (a : attribute)
    (ps : list (string * hval)) :
  NoDup (keys attributes) →
  getProp name attributes = Some a →
  a_type a = Some "json" →
  (∀ n a', n ≠ name → getProp n attributes = Some a' → a_type a' ≠ Some "json") →
  h !! l = Some (Obj ps) →
  LegacyRestrictor.restrictAttributes attributes v h =
    Ret (v, <[l := Obj (keepProps (legacyKeptKey a) ps)]> h) ∧
  (∀ x fields, a_restrictAttributes a = Some (x :: fields) →
               Forall (λ r, r = x) fields →
               LegacyRestrictor.restrictAttributes attributes v h =
               Restrictor.restrictAttributes attributes v h) ∧
  (a_restrictAttributes a = None →
   LegacyRestrictor.restrictAttributes attributes v h =
   Restrictor.restrictAttributes attributes v h) ∧
  (a_restrictAttributes a = Some [] → a_skipAttributes a = None →
   LegacyRestrictor.restrictAttributes attributes v h = Ret (v, h) ∧
   Restrictor.restrictAttributes attributes v h = Ret (v, <[l := Obj []]> h)).
Proof.
  intros Hnodup Ha Hjson Hothers Hl.
  assert (LegacyRestrictor.restrictAttributes attributes v h =
            Ret (v, <[l := Obj (keepProps (legacyKeptKey a) ps)]> h)) as Hlegacy.
  { unfold LegacyRestrictor.restrictAttributes.
    rewrite (forEach_single _ name _ h
               (<[l := Obj (keepProps (legacyKeptKey a) ps)]> h));
      [done|done| | |].
    - apply getProp_is_Some. by eexists.
    - intros n h' [a' Hn]%getProp_is_Some Hne.
      unfold LegacyRestrictor.restrictAttribute. rewrite Hn.
      by rewrite decide_False by (by eapply Hothers).
    - by apply legacy_restrictAttribute_object. }
  pose proof (restrictAttributes_object attributes name a v l vps ps h
                Hnodup Ha Hjson Hothers Hvalues Hattribute Hapart Hl) as Hcurrent.
  split; [done|]. rewrite Hlegacy, Hcurrent.
  split; [|split].
  - intros x fields Hfields Hsame. do 4 f_equal. unfold keepProps.
    apply list_filter_iff. intros kv. unfold legacyKeptKey, keptKey.
    rewrite Hfields.
    assert (forallb (λ r, bool_decide (kv.1 = r)) (x :: fields) =
            bool_decide (kv.1 ∈ x :: fields)) as ->; [|done].
    cbn [forallb]. destruct (decide (kv.1 = x)) as [Heq|Hne].
    + rewrite (bool_decide_eq_true_2 (kv.1 = x)) by done.
      rewrite (bool_decide_eq_true_2 (kv.1 ∈ x :: fields)) by (rewrite Heq; left).
      cbn [andb]. apply forallb_forall. intros r Hr.
      apply bool_decide_eq_true_2. rewrite Heq. symmetry.
      apply (proj1 (Forall_forall _ _) Hsame r). by apply list_elem_of_In.
    + rewrite (bool_decide_eq_false_2 (kv.1 = x)) by done. cbn [andb].
      symmetry. apply bool_decide_eq_false_2.
      intros [?|Hin]%elem_of_cons; [done|].
      apply Hne. by apply (proj1 (Forall_forall _ _) Hsame (kv.1)).
  - intros Hnone. do 4 f_equal. unfold legacyKeptKey, keptKey. by rewrite Hnone.
  - intros Hempty Hnoskip. split.
    + f_equal. f_equal. unfold legacyKeptKey. rewrite Hempty, Hnoskip.
      cbn [forallb andb]. by rewrite keepProps_all, insert_id.
    + do 4 f_equal. unfold keptKey, keepProps. rewrite Hempty, Hnoskip.
      clear. induction ps as [|kv ps IH]; [done|].
      rewrite filter_cons, decide_False; [done|].
      rewrite (bool_decide_eq_false_2 (kv.1 ∈ [])) by apply not_elem_of_nil.
      done.
Qed.

End LegacyObjectValue.

Lemma legacy_restrict_agrees_on_one_field_witness :
  LegacyRestrictor.restrictAttributes (namedAttributes (Some ["x"]) (Some ["z"]))
    1%positive heapXYZ =
    Ret (1%positive, <[2%positive := Obj [("x", HNum 1)]]> heapXYZ) ∧
  LegacyRestrictor.restrictAttributes (namedAttributes (Some ["x"]) (Some ["z"]))
    1%positive heapXYZ =
  Restrictor.restrictAttributes (namedAttributes (Some ["x"]) (Some ["z"]))
    1%positive heapXYZ.
Proof.
  destruct (legacy_restrict_agrees_on_one_field 1%positive 2%positive "meta"
              [("meta", HRef 2%positive)] heapXYZ eq_refl eq_refl
              ltac:(discriminate)
              (namedAttributes (Some ["x"]) (Some ["z"]))
              (jsonAttribute (Some ["x"]) (Some ["z"]))
              [("x", HNum 1); ("y", HNum 2); ("z", HNum 3)])
    as (Hclosed & Hone & _ & _).
  - apply (bool_decide_unpack _). vm_compute. exact I.
  - reflexivity.
  - reflexivity.
  - intros n a' Hne Hn. cbn in Hn. repeat case_decide; try done.
    by injection Hn as <-.
  - reflexivity.
  - split; [exact Hclosed|]. apply (Hone "x" []); [reflexivity|constructor].
Defined.

(** ** The earlier variant of [update] *)

Section LegacyUpdate.
Import Registry Translator.

(** X25.  The earlier [update] takes the identifier from the key [primaryKey] of
    the criteria, whatever the model's primary-key field is called, sends
    the values as its own restrictor leaves them, and hands the callback
    the response of the update itself: no request follows it. *)
Theorem legacy_update_hands_back_response (connections : registry)
    (connectionName collectionName : string) (e : registration)
    (c : collection) (cl : client) (options : criteria)
    (w : list (string * json)) (values : loc) (h : heap) (index : json)
    (restrictedValues : loc * heap) :
  registeredWith connections connectionName collectionName e c cl →
  LegacyRestrictor.restrictAttributes (_attributes c) values h =
    Ret restrictedValues →
  c_where options = Some w →
  isNullish (getJ "primaryKey" w) = false →
  ∃ k,
    LegacyAdapter.update connections connectionName collectionName options
      values h index =
      Call cl M_update
        (onType (resolvedIndex index (cfg_index (config e)) collectionName)
           (adapter_identity c) (Some (getJ "primaryKey" w))
           (Some (PDoc values restrictedValues.2))) k ∧
    ∀ res : written, k (inr res) = Callback None (Some (written_raw res)).
Proof.
  intros Hreg Hrv Hw Hkey.
  destruct (helpers_registered _ _ _ _ _ _ index Hreg)
    as (Hcl & Hidx & Hty & _ & Hattr).
  assert (restrictedValues.1 = values) as Hsame.
  { unfold LegacyRestrictor.restrictAttributes in Hrv.
    destruct (forEach _ _ _); [|done]. cbn in Hrv. by injection Hrv as <-. }
  unfold LegacyAdapter.update, Adapter.whereOf.
  rewrite Hcl, Hidx, Hty, Hattr. cbn [mbind res_bind]. rewrite Hrv, Hw.
  cbn [mbind res_bind]. rewrite Hkey. cbn [run call].
  rewrite Hsame. eexists. split; [reflexivity|done].
Qed.

End LegacyUpdate.

Lemma legacy_update_hands_back_response_witness :
  ∃ k,
    LegacyAdapter.update sampleConnections "es" "user"
      (whereCriteria [("primaryKey", JNum 4)]) 1%positive sampleHeap JUndefined =
      Call (Client sampleConfig) M_update
        (onType (JStr "main") (JStr "user") (Some (JNum 4))
           (Some (PDoc 1%positive
                    (<[2%positive := Obj [("x", HNum 1)]]> sampleHeap)))) k ∧
    k (inr {| written_id := JNum 4; written_raw := JObj [("result", JStr "updated")] |}) =
      Callback None (Some (JObj [("result", JStr "updated")])).
Proof.
  destruct (legacy_update_hands_back_response sampleConnections "es" "user"
              sampleRegistration sampleCollection (Client sampleConfig)
              (whereCriteria [("primaryKey", JNum 4)]) [("primaryKey", JNum 4)]
              1%positive sampleHeap JUndefined
              (1%positive, <[2%positive := Obj [("x", HNum 1)]]> sampleHeap)
              sample_registered) as (k & Hcall & Hk).
  { vm_compute. reflexivity. }
  { reflexivity. }
  { reflexivity. }
  exists k. split; [exact Hcall|].
  exact (Hk {| written_id := JNum 4;
               written_raw := JObj [("result", JStr "updated")] |}).
Defined.

(** ** Registrations of other identities *)

Section RegistryFrame.
Import Registry.

(** X26.  Whatever its outcome (a refusal, a failed connect, a success), a
    registration leaves the entry of every other identity as it was. *)
Theorem registerConnection_keeps_others
    (this_connect : Connection → error + client)
    (connection : connectionConfig)
    (collections : option (gmap string collection))
    (connections : registry) (other : string) :
  identity connection ≠ Some other →
  (registerConnection this_connect connection collections connections).1 !! other =
  connections !! other.
Proof.
  intros Hother. unfold registerConnection.
  destruct (identity connection) as [id|] eqn:Hid; [|done].
  assert (id ≠ other) as Hne by congruence.
  destruct id as [|ch id']; [done|].
  destruct (registered connections (String ch id')); [done|].
  destruct (new_Connection this_connect connection).2 as [err|conn]; cbn [fst].
  - by rewrite lookup_insert_ne.
  - by rewrite lookup_alter_ne, lookup_insert_ne.
Qed.

End RegistryFrame.

Lemma registerConnection_keeps_others_witness :
  (Registry.registerConnection failingConnect otherConfig None sampleConnections).1
    !! "es" = Some sampleRegistration ∧
  (Registry.registerConnection Registry.connect otherConfig None sampleConnections).1
    !! "es" = Some sampleRegistration.
Proof.
  split.
  - exact (registerConnection_keeps_others failingConnect otherConfig None
             sampleConnections "es" ltac:(discriminate)).
  - exact (registerConnection_keeps_others Registry.connect otherConfig None
             sampleConnections "es" ltac:(discriminate)).
Defined.
